(** * generate_docset.py: crawl-and-normalize engine of the Dyalog APL docset

    A shallow embedding of [generate_docset.py] and the properties its
    specification states about it.

    Conventions of the embedding.
    - Python [str] is [string]; a character is a code point below 256.
    - A raised exception is a value: [result A] is either [Ok a] or
      [Raise e], threaded with stdpp's [x ← c; k].
    - A [set[str]] is a [gset string].  A directory tree of files is a
      [gmap string _] keyed by the path of the file.
    - A parsed HTML document (a [BeautifulSoup] object) is a [node]; the
      in-place mutations of the source are functions from the tree to the
      updated tree.
    - The library functions the source calls ([str] methods,
      [urllib.parse], [bs4], [pathlib], [requests]) are embedded from their
      CPython 3.11 / bs4 4 behaviour in the modules [Py], [Urllib], [Bs4]
      and [Pathlib]. *)

From stdpp Require Import base option list gmap sets strings pretty.
From Stdlib Require Import Ascii String.

Open Scope string_scope.
Open Scope list_scope.

Set Warnings "-clear-no-such-hyp".

(** ** Exceptions *)

Inductive exn : Type :=
| ValueError
| TypeError
| AttributeError
| KeyError (key : string)
| StopIteration
| FileNotFoundError
| HTTPError (msg : string).

Inductive result (A : Type) : Type :=
| Ok (a : A)
| Raise (e : exn).
Arguments Ok {A} a.
Arguments Raise {A} e.

#[global] Instance result_ret : MRet result := λ A a, Ok a.

#[global] Instance result_bind : MBind result := λ A B k c,
  match c with
  | Ok a => k a
  | Raise e => Raise e
  end.

#[global] Instance result_fmap : FMap result := λ A B f c,
  match c with
  | Ok a => Ok (f a)
  | Raise e => Raise e
  end.

Definition is_ok {A} (r : result A) : bool :=
  match r with Ok _ => true | Raise _ => false end.

Fixpoint rmapM {A B} (f : A → result B) (l : list A) : result (list B) :=
  match l with
  | [] => Ok []
  | x :: l' => y ← f x; ys ← rmapM f l'; Ok (y :: ys)
  end.

(** ** Python [str] methods *)

Module Py.

(** [p in s] for a one-character [p]. *)
Fixpoint has_char (c : ascii) (s : string) : bool :=
  match s with
  | EmptyString => false
  | String d s' => if Ascii.eqb c d then true else has_char c s'
  end.

(** [s.startswith(p)]. *)
Definition startswith (s p : string) : bool := String.prefix p s.

(** [sub in s]. *)
Fixpoint contains (sub s : string) : bool :=
  String.prefix sub s ||
  match s with
  | EmptyString => false
  | String _ s' => contains sub s'
  end.

(** [s[n:]]. *)
Fixpoint drop_str (n : nat) (s : string) : string :=
  match n, s with
  | O, _ => s
  | S n', String _ s' => drop_str n' s'
  | S _, EmptyString => EmptyString
  end.

(** [s[:n]]. *)
Fixpoint take_str (n : nat) (s : string) : string :=
  match n, s with
  | S n', String c s' => String c (take_str n' s')
  | _, _ => EmptyString
  end.

(** [s.endswith(p)]. *)
Definition endswith (s p : string) : bool :=
  Nat.leb (String.length p) (String.length s) &&
  String.eqb (drop_str (String.length s - String.length p) s) p.

(** [s.removesuffix(p)]. *)
Definition removesuffix (s p : string) : string :=
  if negb (String.eqb p "") && endswith s p
  then take_str (String.length s - String.length p) s
  else s.

(** [s.removeprefix(p)]. *)
Definition removeprefix (s p : string) : string :=
  if startswith s p then drop_str (String.length p) s else s.

(** [s.replace(old, new)] for a non-empty [old]: occurrences are replaced
    from the left and do not overlap.  [skip] counts the characters of
    the occurrence being replaced that are still to be passed over. *)
Fixpoint replace_from (skip : nat) (old new s : string) : string :=
  match s with
  | EmptyString => EmptyString
  | String c s' =>
      match skip with
      | S k => replace_from k old new s'
      | O =>
          if String.prefix old s
          then new +:+ replace_from (String.length old - 1) old new s'
          else String c (replace_from 0 old new s')
      end
  end.

Definition replace (s old new : string) : string := replace_from 0 old new s.

(** [s.split(c, 1)] when [c in s]: the text before the first [c] and the
    text after it. *)
Fixpoint split_once (c : ascii) (s : string) : option (string * string) :=
  match s with
  | EmptyString => None
  | String d s' =>
      if Ascii.eqb c d then Some (EmptyString, s')
      else match split_once c s' with
           | Some (a, b) => Some (String d a, b)
           | None => None
           end
  end.

(** The text before the last [c] of [s] and the text after it, [None]
    when [c] does not occur: [s.rpartition(c)], [s.rfind(c)]. *)
Fixpoint rsplit_once (c : ascii) (s : string) : option (string * string) :=
  match s with
  | EmptyString => None
  | String d s' =>
      match rsplit_once c s' with
      | Some (a, b) => Some (String d a, b)
      | None => if Ascii.eqb c d then Some (EmptyString, s') else None
      end
  end.

(** [s.split(c)]: never empty. *)
Fixpoint split (c : ascii) (s : string) : list string :=
  match s with
  | EmptyString => [EmptyString]
  | String d s' =>
      if Ascii.eqb c d then EmptyString :: split c s'
      else match split c s' with
           | w :: ws => String d w :: ws
           | [] => [String d EmptyString]
           end
  end.

(** [sep.join(l)]. *)
Fixpoint join (sep : string) (l : list string) : string :=
  match l with
  | [] => EmptyString
  | [w] => w
  | w :: ws => w +:+ sep +:+ join sep ws
  end.

(** [s.lstrip(chars)] and [s.rstrip(chars)] with the set of characters
    given as a predicate. *)
Fixpoint lstrip (p : ascii → bool) (s : string) : string :=
  match s with
  | EmptyString => EmptyString
  | String c s' => if p c then lstrip p s' else s
  end.

Fixpoint rstrip (p : ascii → bool) (s : string) : string :=
  match s with
  | EmptyString => EmptyString
  | String c s' =>
      match rstrip p s' with
      | EmptyString => if p c then EmptyString else String c EmptyString
      | r => String c r
      end
  end.

Definition strip (p : ascii → bool) (s : string) : string :=
  rstrip p (lstrip p s).

(** Characters removed one by one, [s.replace(c, "")]. *)
Fixpoint remove_chars (p : ascii → bool) (s : string) : string :=
  match s with
  | EmptyString => EmptyString
  | String c s' => if p c then remove_chars p s' else String c (remove_chars p s')
  end.

Definition code (c : ascii) : nat := nat_of_ascii c.

Definition in_range (lo hi : nat) (c : ascii) : bool :=
  Nat.leb lo (code c) && Nat.leb (code c) hi.

Definition is_upper (c : ascii) : bool := in_range 65 90 c.
Definition is_lower (c : ascii) : bool := in_range 97 122 c.
Definition is_digit (c : ascii) : bool := in_range 48 57 c.
Definition is_ascii_alpha (c : ascii) : bool := is_upper c || is_lower c.

(** [str.isspace] on one character (and [\s] of [re] on [str]): the
    white space of Unicode below 256. *)
Definition is_space (c : ascii) : bool :=
  in_range 9 13 c || in_range 28 32 c ||
  Nat.eqb (code c) 133 || Nat.eqb (code c) 160.

(** [c.lower()]: the capital letters below 256 are A to Z and the
    code points 192 to 222 without the multiplication sign 215. *)
Definition lower_char (c : ascii) : ascii :=
  if is_upper c || (in_range 192 222 c && negb (Nat.eqb (code c) 215))
  then ascii_of_nat (code c + 32)
  else c.

Fixpoint lower (s : string) : string :=
  match s with
  | EmptyString => EmptyString
  | String c s' => String (lower_char c) (lower s')
  end.

Fixpoint all_chars (p : ascii → bool) (s : string) : bool :=
  match s with
  | EmptyString => true
  | String c s' => p c && all_chars p s'
  end.

(** [re.sub(r"\s+", " ", s)]: every maximal run of white space becomes
    one space.  [in_run] tells that the previous character was white
    space, whose space has been written already. *)
Fixpoint collapse_ws (in_run : bool) (s : string) : string :=
  match s with
  | EmptyString => EmptyString
  | String c s' =>
      if is_space c
      then (if in_run then collapse_ws true s' else String " " (collapse_ws true s'))
      else String c (collapse_ws false s')
  end.

End Py.

(** ** The entry classifier *)

(** [ENTRY_TYPES]: a [dict] literal, iterated in the order it is written. *)
Definition ENTRY_TYPES : list (string * string) :=
  [ ("Language/I Beam Functions", "Function");
    ("Language/Primitive Functions", "Function");
    ("Language/System Functions", "Function");
    ("DotNet", "Guide");
    ("InterfaceGuide", "Guide");
    ("Language/APL Component Files", "Guide");
    ("Language/Appendices/PCRE", "Guide");
    ("Language/Defined Functions and Operators", "Guide");
    ("Language/Introduction", "Guide");
    ("Language/Object Oriented Programming", "Guide");
    ("RelNotes", "Guide");
    ("UNIX_IUG", "Guide");
    ("UserGuide", "Guide");
    ("GUI/Examples", "Guide");
    ("Language/Error Trapping", "Guide");
    ("MiscPages", "Section");
    ("GUI/Miscellaneous", "Section");
    ("GUI/SummaryTables", "Section");
    ("GUI/Objects", "Object");
    ("GUI/ChildLists", "Object");
    ("GUI/EventLists", "Object");
    ("GUI/MethodLists", "Object");
    ("GUI/MethodOrEventApplies", "Object");
    ("GUI/ParentLists", "Object");
    ("GUI/PropLists", "Object");
    ("GUI/PropertyApplies", "Object");
    ("GUI/Properties", "Property");
    ("Language/Control Structures", "Statement");
    ("Language/Errors", "Error");
    ("Language/Primitive Operators", "Operator");
    ("Language/System Commands", "Command");
    ("Language/Symbols", "Notation") ].

(** [next(v for k, v in table.items() if k in path)]: the value of the
    first key that occurs in [path]; [StopIteration] when there is none. *)
Fixpoint next_match (table : list (string * string)) (path : string) : result string :=
  match table with
  | [] => Raise StopIteration
  | (k, v) :: table' => if Py.contains k path then Ok v else next_match table' path
  end.

Definition METHOD_OR_EVENTS : string := "GUI/MethodOrEvents".
Definition CONFIGURATION_PARAMETERS : string :=
  "UserGuide/Installation and Configuration/Configuration Parameters".

Definition get_entry_type (path title : string) : result string :=
  if Py.contains METHOD_OR_EVENTS path then
    Ok (if Py.contains " Event" title then "Event" else "Method")
  else if Py.contains CONFIGURATION_PARAMETERS path then
    Ok "Setting"
  else next_match ENTRY_TYPES path.

(** ** [urllib.parse] *)

(** The functions of [urllib.parse] the source calls, after CPython 3.11.
    [urlsplit] raises [ValueError] for a network location with an unmatched
    square bracket.  Later releases also reject some network locations
    with matched brackets or with characters above 127; both checks
    concern URLs whose network location is not empty. *)
Module Urllib.

Record ParseResult := mkParse {
  scheme : string;
  netloc : string;
  path : string;
  params : string;
  query : string;
  fragment : string
}.

Definition uses_relative : list string :=
  [""; "ftp"; "http"; "gopher"; "nntp"; "imap"; "wais"; "file"; "https";
   "shttp"; "mms"; "prospero"; "rtsp"; "rtspu"; "sftp"; "svn"; "svn+ssh";
   "ws"; "wss"].

Definition uses_netloc : list string :=
  [""; "ftp"; "http"; "gopher"; "nntp"; "telnet"; "imap"; "wais"; "file";
   "mms"; "https"; "shttp"; "snews"; "prospero"; "rtsp"; "rtspu"; "rsync";
   "svn"; "svn+ssh"; "sftp"; "nfs"; "git"; "git+ssh"; "ws"; "wss"].

Definition uses_params : list string :=
  [""; "ftp"; "hdl"; "prospero"; "http"; "imap"; "https"; "shttp"; "rtsp";
   "rtspu"; "sip"; "sips"; "mms"; "sftp"; "tel"].

Definition mem (s : string) (l : list string) : bool :=
  existsb (String.eqb s) l.

(** [scheme_chars]. *)
Definition scheme_char (c : ascii) : bool :=
  Py.is_lower c || Py.is_upper c || Py.is_digit c ||
  Ascii.eqb c "+" || Ascii.eqb c "-" || Ascii.eqb c ".".

(** [_WHATWG_C0_CONTROL_OR_SPACE]. *)
Definition c0_control_or_space (c : ascii) : bool := Nat.leb (Py.code c) 32.

(** [_UNSAFE_URL_BYTES_TO_REMOVE]: tab, carriage return, line feed. *)
Definition unsafe_url_byte (c : ascii) : bool :=
  Nat.eqb (Py.code c) 9 || Nat.eqb (Py.code c) 13 || Nat.eqb (Py.code c) 10.

Definition netloc_delim (c : ascii) : bool :=
  Ascii.eqb c "/" || Ascii.eqb c "?" || Ascii.eqb c "#".

(** [_splitnetloc(url, 2)] on the text after the two slashes: the
    network location ends at the first of [/], [?] and [#]. *)
Fixpoint splitnetloc (s : string) : string * string :=
  match s with
  | EmptyString => (EmptyString, EmptyString)
  | String c s' =>
      if netloc_delim c then (EmptyString, s)
      else let '(n, r) := splitnetloc s' in (String c n, r)
  end.

(** The scheme of [url], when it has one, and the text after its colon. *)
Definition split_scheme (url : string) : option (string * string) :=
  match Py.split_once ":" url with
  | Some (String c0 pre, post) =>
      if Py.is_ascii_alpha c0 && Py.all_chars scheme_char (String c0 pre)
      then Some (Py.lower (String c0 pre), post)
      else None
  | _ => None
  end.

(** [urlsplit(url, scheme)], with the parameters field left empty. *)
Definition urlsplit (url scheme0 : string) : result ParseResult :=
  let url := Py.lstrip c0_control_or_space url in
  let scheme0 := Py.strip c0_control_or_space scheme0 in
  let url := Py.remove_chars unsafe_url_byte url in
  let scheme0 := Py.remove_chars unsafe_url_byte scheme0 in
  let '(sch, url) :=
    match split_scheme url with
    | Some (s, rest) => (s, rest)
    | None => (scheme0, url)
    end in
  '(nl, url) ←
    (if Py.startswith url "//" then
       let '(nl, rest) := splitnetloc (Py.drop_str 2 url) in
       if xorb (Py.has_char "[" nl) (Py.has_char "]" nl)
       then Raise ValueError
       else Ok (nl, rest)
     else Ok (EmptyString, url));
  let '(url, frag) :=
    match Py.split_once "#" url with
    | Some (u, f) => (u, f)
    | None => (url, EmptyString)
    end in
  let '(url, qry) :=
    match Py.split_once "?" url with
    | Some (u, q) => (u, q)
    | None => (url, EmptyString)
    end in
  Ok (mkParse sch nl url EmptyString qry frag).

(** [_splitparams(url)], called when [;] occurs in [url]. *)
Definition splitparams (url : string) : string * string :=
  match Py.rsplit_once "/" url with
  | Some (dir, last) =>
      match Py.split_once ";" last with
      | Some (a, b) => (dir +:+ "/" +:+ a, b)
      | None => (url, EmptyString)
      end
  | None =>
      match Py.split_once ";" url with
      | Some (a, b) => (a, b)
      | None => (url, EmptyString)
      end
  end.

Definition urlparse (url scheme0 : string) : result ParseResult :=
  r ← urlsplit url scheme0;
  if mem (scheme r) uses_params && Py.has_char ";" (path r)
  then let '(u, p) := splitparams (path r) in
       Ok (mkParse (scheme r) (netloc r) u p (query r) (fragment r))
  else Ok r.

Definition nonempty (s : string) : bool := negb (String.eqb s "").

Definition urlunsplit (sch nl url qry frag : string) : string :=
  let url :=
    if nonempty nl ||
       (nonempty sch && mem sch uses_netloc && negb (Py.startswith url "//"))
    then "//" +:+ nl +:+
         (if nonempty url && negb (Py.startswith url "/") then "/" +:+ url else url)
    else url in
  let url := if nonempty sch then sch +:+ ":" +:+ url else url in
  let url := if nonempty qry then url +:+ "?" +:+ qry else url in
  if nonempty frag then url +:+ "#" +:+ frag else url.

Definition urlunparse (r : ParseResult) : string :=
  let url := if nonempty (params r) then path r +:+ ";" +:+ params r else path r in
  urlunsplit (scheme r) (netloc r) url (query r) (fragment r).

(** [urldefrag(url)]: the URL without its fragment, and the fragment. *)
Definition urldefrag (url : string) : result (string * string) :=
  if Py.has_char "#" url then
    r ← urlparse url "";
    Ok (urlunparse (mkParse (scheme r) (netloc r) (path r) (params r) (query r) ""),
        fragment r)
  else Ok (url, "").

(** [segments[1:-1] = filter(None, segments[1:-1])]. *)
Definition filter_middle (segments : list string) : list string :=
  match segments with
  | [] => []
  | s0 :: rest =>
      match rest with
      | [] => [s0]
      | _ => s0 :: List.filter nonempty (removelast rest) ++ [List.last rest ""]
      end
  end.

(** The loop of [urljoin] over the segments: [..] drops the last segment
    kept so far (if any), [.] is passed over. *)
Definition resolve_segment (resolved : list string) (seg : string) : list string :=
  if String.eqb seg ".." then removelast resolved
  else if String.eqb seg "." then resolved
  else resolved ++ [seg].

Definition urljoin (base url : string) : result string :=
  if negb (nonempty base) then Ok url
  else if negb (nonempty url) then Ok base
  else
    b ← urlparse base "";
    u ← urlparse url (scheme b);
    if negb (String.eqb (scheme u) (scheme b)) || negb (mem (scheme u) uses_relative)
    then Ok url
    else if mem (scheme u) uses_netloc && nonempty (netloc u)
    then Ok (urlunparse u)
    else
      let nl := if mem (scheme u) uses_netloc then netloc b else netloc u in
      if negb (nonempty (path u)) && negb (nonempty (params u))
      then Ok (urlunparse (mkParse (scheme u) nl (path b) (params b)
                             (if nonempty (query u) then query u else query b)
                             (fragment u)))
      else
        let base_parts := Py.split "/" (path b) in
        let base_parts :=
          if nonempty (List.last base_parts "") then removelast base_parts
          else base_parts in
        let segments :=
          if Py.startswith (path u) "/" then Py.split "/" (path u)
          else filter_middle (base_parts ++ Py.split "/" (path u)) in
        let resolved := fold_left resolve_segment segments [] in
        let resolved :=
          if mem (List.last segments "") ["."; ".."] then resolved ++ [""]
          else resolved in
        let joined := Py.join "/" resolved in
        Ok (urlunparse (mkParse (scheme u) nl
                          (if nonempty joined then joined else "/")
                          (params u) (query u) (fragment u))).

(** [_ALWAYS_SAFE]: the characters [quote] never escapes. *)
Definition always_safe (c : ascii) : bool :=
  Py.is_upper c || Py.is_lower c || Py.is_digit c ||
  Ascii.eqb c "_" || Ascii.eqb c "." || Ascii.eqb c "-" || Ascii.eqb c "~".

Definition hex_digit (n : nat) : ascii :=
  if Nat.ltb n 10 then ascii_of_nat (48 + n) else ascii_of_nat (55 + n).

Definition percent_byte (b : nat) : string :=
  String "%" (String (hex_digit (b / 16)) (String (hex_digit (b mod 16)) EmptyString)).

(** The UTF-8 bytes of a code point below 256. *)
Definition utf8 (c : ascii) : list nat :=
  let n := Py.code c in
  if Nat.ltb n 128 then [n] else [192 + n / 64; 128 + n mod 64].

(** [quote(s, safe="")]. *)
Fixpoint quote (s : string) : string :=
  match s with
  | EmptyString => EmptyString
  | String c s' =>
      (if always_safe c then String c EmptyString
       else fold_right (λ b acc, percent_byte b +:+ acc) EmptyString (utf8 c))
      +:+ quote s'
  end.

End Urllib.

(** ** [bs4]: the parse tree and its operations *)

(** A document as [BeautifulSoup(fd, "html.parser")] builds it.  The
    [BeautifulSoup] object is the tag named [[document]]; tag and
    attribute names are in lower case; an attribute holds the text written
    in the page, and the attributes bs4 keeps as lists ([class], [rel]) are
    read through [tokens].  [Comment] stands for every string that
    [get_text] passes over. *)
Module Bs4.

#[warnings="-register-all"]
Inductive node : Type :=
| NavigableString (s : string)
| Comment (s : string)
| Tag (name : string) (attrs : list (string * string)) (contents : list node).

Definition is_tag (n : node) : bool :=
  match n with Tag _ _ _ => true | _ => false end.

Definition name_of (n : node) : string :=
  match n with Tag nm _ _ => nm | _ => "" end.

Definition attrs_of (n : node) : list (string * string) :=
  match n with Tag _ a _ => a | _ => [] end.

Definition contents_of (n : node) : list node :=
  match n with Tag _ _ cs => cs | _ => [] end.

(** [tag.get(key)]. *)
Fixpoint attr_get (key : string) (attrs : list (string * string)) : option string :=
  match attrs with
  | [] => None
  | (k, v) :: attrs' => if String.eqb k key then Some v else attr_get key attrs'
  end.

(** [tag[key] = v]: a key already there keeps its place. *)
Fixpoint attr_set (key v : string) (attrs : list (string * string)) : list (string * string) :=
  match attrs with
  | [] => [(key, v)]
  | (k, w) :: attrs' =>
      if String.eqb k key then (k, v) :: attrs' else (k, w) :: attr_set key v attrs'
  end.

(** [del tag[key]]: nothing happens when the key is absent. *)
Definition attr_del (key : string) (attrs : list (string * string)) : list (string * string) :=
  List.filter (λ kv, negb (String.eqb (fst kv) key)) attrs.

Definition get (n : node) (key : string) : option string := attr_get key (attrs_of n).

(** [tag[key]]. *)
Definition getitem (n : node) (key : string) : result string :=
  match get n key with
  | Some v => Ok v
  | None => Raise (KeyError key)
  end.

(** The values of a list attribute: the maximal runs of characters that
    are not white space.  [cur] is the run being read. *)
Fixpoint tokens_from (cur : string) (s : string) : list string :=
  match s with
  | EmptyString => if Urllib.nonempty cur then [cur] else []
  | String c s' =>
      if Py.is_space c
      then (if Urllib.nonempty cur then cur :: tokens_from "" s' else tokens_from "" s')
      else tokens_from (cur +:+ String c EmptyString) s'
  end.

Definition tokens (s : string) : list string := tokens_from "" s.

(** [tag.get(key, [])] for a list attribute. *)
Definition get_list (n : node) (key : string) : list string :=
  match get n key with
  | Some v => tokens v
  | None => []
  end.

(** [tag.descendants]: every node below [n], in document order. *)
Fixpoint descendants (n : node) : list node :=
  match n with
  | Tag _ _ cs =>
      (fix go (l : list node) : list node :=
         match l with
         | [] => []
         | c :: l' => c :: descendants c ++ go l'
         end) cs
  | _ => []
  end.

Fixpoint descendants_list (l : list node) : list node :=
  match l with
  | [] => []
  | c :: l' => c :: descendants c ++ descendants_list l'
  end.

(** [soup(p)], that is [soup.find_all(p)]: the tags below [soup] that
    [p] accepts, in document order. *)
Definition find_all (p : node → bool) (soup : node) : list node :=
  List.filter (λ d, is_tag d && p d) (descendants soup).

(** [find_all] with a test that may raise: the first exception ends the
    search. *)
Fixpoint filter_r (p : node → result bool) (l : list node) : result (list node) :=
  match l with
  | [] => Ok []
  | d :: l' =>
      b ← p d;
      r ← filter_r p l';
      Ok (if (b : bool) then d :: r else r)
  end.

Definition find_all_r (p : node → result bool) (soup : node) : result (list node) :=
  filter_r p (List.filter is_tag (descendants soup)).

(** [soup.find(p)]: the first tag of [find_all]. *)
Definition find (p : node → bool) (soup : node) : option node :=
  head (find_all p soup).

(** [tag.get_text()]. *)
Definition text_of (n : node) : string :=
  match n with NavigableString s => s | _ => "" end.

Definition get_text (n : node) : string :=
  fold_right (λ d acc, text_of d +:+ acc) "" (descendants n).

(** [tag.string]: the only child when it is a string, the [string] of
    the only child when it is a tag. *)
Fixpoint string_of (n : node) : option string :=
  match n with
  | Tag _ _ [c] =>
      match c with
      | NavigableString s => Some s
      | Comment s => Some s
      | Tag _ _ _ => string_of c
      end
  | _ => None
  end.

(** A search by tag name, [soup(name)]. *)
Definition named (nm : string) (n : node) : bool :=
  is_tag n && String.eqb (name_of n) nm.

(** A search [class_=[c1, c2, ...]]: one of the classes of the tag, or
    all of them joined by spaces, is among the given ones. *)
Definition has_class_in (classes : list string) (n : node) : bool :=
  is_tag n &&
  match get n "class" with
  | None => false
  | Some v =>
      existsb (λ t, Urllib.mem t classes) (tokens v) ||
      Urllib.mem (Py.join " " (tokens v)) classes
  end.

(** [for el in soup(p): el.extract()]: every tag below [soup] that [p]
    accepts leaves the tree, with all it contains. *)
Fixpoint extract_all (p : node → bool) (n : node) : node :=
  match n with
  | Tag nm a cs =>
      Tag nm a
        ((fix go (l : list node) : list node :=
            match l with
            | [] => []
            | c :: l' => if p c then go l' else extract_all p c :: go l'
            end) cs)
  | _ => n
  end.

Fixpoint extract_all_list (p : node → bool) (l : list node) : list node :=
  match l with
  | [] => []
  | c :: l' => if p c then extract_all_list p l' else extract_all p c :: extract_all_list p l'
  end.

(** [for el in soup(p): el[...] = ...]: the attributes of every tag below
    [soup] that [p] accepts are replaced by [f] of them. *)
Fixpoint update_all (p : node → bool) (f : list (string * string) → list (string * string))
    (n : node) : node :=
  match n with
  | Tag nm a cs =>
      Tag nm a
        ((fix go (l : list node) : list node :=
            match l with
            | [] => []
            | c :: l' =>
                match update_all p f c with
                | Tag nm' a' cs' => Tag nm' (if p c then f a' else a') cs'
                | c' => c'
                end :: go l'
            end) cs)
  | _ => n
  end.

Definition update_node (p : node → bool) (f : list (string * string) → list (string * string))
    (c : node) : node :=
  match update_all p f c with
  | Tag nm' a' cs' => Tag nm' (if p c then f a' else a') cs'
  | c' => c'
  end.

(** [f] applied to the first tag below [n] that [p] accepts, [None] when
    there is none: the update of [soup.find(p)]. *)
Fixpoint update_first (p : node → bool) (f : node → node) (n : node) : option node :=
  match n with
  | Tag nm a cs =>
      match
        (fix go (l : list node) : option (list node) :=
           match l with
           | [] => None
           | c :: l' =>
               if p c then Some (f c :: l')
               else match update_first p f c with
                    | Some c' => Some (c' :: l')
                    | None =>
                        match go l' with
                        | Some r => Some (c :: r)
                        | None => None
                        end
                    end
           end) cs
      with
      | Some cs' => Some (Tag nm a cs')
      | None => None
      end
  | _ => None
  end.

Fixpoint update_first_list (p : node → bool) (f : node → node) (l : list node)
    : option (list node) :=
  match l with
  | [] => None
  | c :: l' =>
      if p c then Some (f c :: l')
      else match update_first p f c with
           | Some c' => Some (c' :: l')
           | None =>
               match update_first_list p f l' with
               | Some r => Some (c :: r)
               | None => None
               end
           end
  end.

End Bs4.

Export Bs4.

(** ** Link extraction and the sanitizer *)

Definition is_relative_href (href : option string) : result bool :=
  match href with
  | None => Ok false
  | Some h =>
      r ← Urllib.urlparse h "";
      Ok (negb (Urllib.nonempty (Urllib.netloc r))
          && negb (Py.startswith h "javascript:")
          && negb (Py.startswith h "mailto:"))
  end.

Definition clean_heading_name (heading : string) : string :=
  Py.removesuffix (Py.collapse_ws false (Py.strip Py.is_space heading)) ":".

Definition is_section_heading (element : node) : bool :=
  if Urllib.mem (name_of element) ["h4"; "h5"] then
    negb (Urllib.mem (Py.lower (clean_heading_name (get_text element)))
            ["example"; "examples"])
  else
    String.eqb (name_of element) "p"
    && Urllib.mem "TableCaption" (get_list element "class").

(** The search [soup("a", href=is_relative_href)] tests the [href] of the
    tags named [a] only. *)
Definition is_relative_link (n : node) : result bool :=
  if named "a" n then is_relative_href (get n "href") else Ok false.

Definition relative_link (n : node) : bool :=
  match is_relative_link n with
  | Ok b => b
  | Raise _ => false
  end.

(** [link["href"] = link["href"].replace(".htm", ".html")]. *)
Definition patch_href (attrs : list (string * string)) : list (string * string) :=
  match attr_get "href" attrs with
  | Some h => attr_set "href" (Py.replace h ".htm" ".html") attrs
  | None => attrs
  end.

Definition FURNITURE : list string := ["MCWebHelpFramesetLinkTop"; "breadcrumbs"].

(** Lines 195-196. *)
Definition remove_furniture (soup : node) : node :=
  extract_all (has_class_in FURNITURE) soup.

(** Line 199, [del soup.body["onload"]]: [soup.body] is [None] in a
    document without a [body] tag, and the deletion raises [TypeError]. *)
Definition del_body_onload (soup : node) : result node :=
  match update_first (named "body")
          (λ b, Tag (name_of b) (attr_del "onload" (attrs_of b)) (contents_of b)) soup with
  | Some soup' => Ok soup'
  | None => Raise TypeError
  end.

(** Lines 200-201. *)
Definition remove_scripts (soup : node) : node :=
  extract_all (named "script") soup.

(** Lines 204-205: the search runs to its end (and may raise) before the
    first link is rewritten. *)
Definition patch_links (soup : node) : result node :=
  _ ← find_all_r is_relative_link soup;
  Ok (update_all relative_link patch_href soup).

Definition heading_key (x : node) : string := clean_heading_name (get_text x).

(** [[next(v) for _, v in itertools.groupby(l, key=heading_key)]]: the
    first element of every run of equal keys.  [prev] is the key of the
    element before [l], if any. *)
Fixpoint group_firsts (prev : option string) (l : list node) : list node :=
  match l with
  | [] => []
  | x :: l' =>
      (if decide (prev = Some (heading_key x)) then [] else [x])
      ++ group_firsts (Some (heading_key x)) l'
  end.

(** Lines 210-216. *)
Definition sections (soup : node) : list node :=
  group_firsts None (find_all is_section_heading soup).

(** [BeautifulSoup(anchor, "html.parser")] for the anchor of [section];
    [insert_before] puts the contents of that object, the one [a] tag, in
    the tree.  The quoted name has no character that ends the attribute. *)
Definition dash_anchor (section : node) : node :=
  Tag "a"
    [("name", "//apple_ref/cpp/Section/" +:+ Urllib.quote (heading_key section));
     ("class", "dashAnchor")]
    [].

(** Lines 218-222, [section.insert_before(anchor)] for every [section]
    of [sections]: one walk in document order that keeps the key of the
    last section heading met ([prev]) and puts an anchor before a heading
    whose key differs from it, that is before the first heading of every
    run.  The text of a heading is not changed by the anchors, which have
    none. *)
Fixpoint insert_anchors (prev : option string) (n : node) : node * option string :=
  match n with
  | Tag nm a cs =>
      let '(cs', prev') :=
        (fix go (prev : option string) (l : list node) : list node * option string :=
           match l with
           | [] => ([], prev)
           | c :: l' =>
               let hit := is_tag c && is_section_heading c in
               let first := hit && negb (bool_decide (prev = Some (heading_key c))) in
               let '(c', prev1) :=
                 insert_anchors (if hit then Some (heading_key c) else prev) c in
               let '(r, prev2) := go prev1 l' in
               ((if first then [dash_anchor c] else []) ++ c' :: r, prev2)
           end) prev cs in
      (Tag nm a cs', prev')
  | _ => (n, prev)
  end.

Fixpoint insert_anchors_list (prev : option string) (l : list node)
    : list node * option string :=
  match l with
  | [] => ([], prev)
  | c :: l' =>
      let hit := is_tag c && is_section_heading c in
      let first := hit && negb (bool_decide (prev = Some (heading_key c))) in
      let '(c', prev1) :=
        insert_anchors (if hit then Some (heading_key c) else prev) c in
      let '(r, prev2) := insert_anchors_list prev1 l' in
      ((if first then [dash_anchor c] else []) ++ c' :: r, prev2)
  end.

(** Lines 217-222. *)
Definition add_anchors (soup : node) : node :=
  if Nat.leb 2 (List.length (sections soup)) then fst (insert_anchors None soup) else soup.

Definition sanitize_html (soup : node) : result node :=
  let soup := remove_furniture soup in
  soup ← del_body_onload soup;
  let soup := remove_scripts soup in
  soup ← patch_links soup;
  Ok (add_anchors soup).

Definition resolve_url (page href : string) : result string :=
  '(base, frag) ← Urllib.urldefrag href;
  if Py.contains "../index.htm" base
  then Ok ("/Content/" +:+ frag)
  else Urllib.urljoin page base.

(** ** [pathlib] *)

(** Pure POSIX paths: a path is the list of its components.  Empty
    components and [.] disappear when a path is built; exactly two leading
    slashes are a root of their own, different from [/]. *)
Module Pathlib.

Definition parts (p : string) : list string :=
  List.filter (λ s, Urllib.nonempty s && negb (String.eqb s ".")) (Py.split "/" p).

Definition has_root (p : string) : bool :=
  Py.startswith p "/" && (negb (Py.startswith p "//") || Py.startswith p "///").

(** [Path(p).relative_to("/")]. *)
Definition relative_to_root (p : string) : result (list string) :=
  if has_root p then Ok (parts p) else Raise ValueError.

(** [name.with_suffix(suffix)] on the last component: the text from the
    last dot is the old suffix, unless that dot is the first or the last
    character. *)
Definition with_suffix_name (name suffix : string) : string :=
  match Py.rsplit_once "." name with
  | Some (stem, ext) =>
      if Urllib.nonempty stem && Urllib.nonempty ext then stem +:+ suffix
      else name +:+ suffix
  | None => name +:+ suffix
  end.

Definition with_suffix (ps : list string) (suffix : string) : list string :=
  match ps with
  | [] => []
  | _ => removelast ps ++ [with_suffix_name (List.last ps "") suffix]
  end.

Definition to_string (ps : list string) : string := Py.join "/" ps.

End Pathlib.

(** ** The fetch cache and the crawl *)

Definition BASE_URL : string := "https://help.dyalog.com/latest".
Definition TMP_DIR : list string := ["tmp"].
Definition DOCUMENTS_DIR : list string :=
  ["Dyalog APL.docset"; "Contents"; "Resources"; "Documents"].

(** What the remote site answers to [requests.get(BASE_URL + path)]; the
    body of a page is given by its parse. *)
Record response := mkResponse {
  status : nat;
  reason : string;
  content : node
}.

(** [r.raise_for_status()]. *)
Definition raise_for_status (url : string) (r : response) : result unit :=
  if Nat.leb 400 (status r) && Nat.ltb (status r) 500 then
    Raise (HTTPError (pretty (status r) +:+ " Client Error: " +:+ reason r
                      +:+ " for url: " +:+ url))
  else if Nat.leb 500 (status r) && Nat.ltb (status r) 600 then
    Raise (HTTPError (pretty (status r) +:+ " Server Error: " +:+ reason r
                      +:+ " for url: " +:+ url))
  else Ok ().

(** The two queues of [DownloadQueues], the local [done_pages] of
    [crawl_pages], and the outside world as far as the crawl touches it:
    the files of the cache under [tmp] and those of the docset under
    [DOCUMENTS_DIR], each by its path, the requests sent so far, and the
    lines written to the error stream.  Directories are created and files
    are written without failure; the progress bar is left out. *)
Record state := mkState {
  pages : gset string;
  assets : gset string;
  done_pages : gset string;
  files : gmap string node;
  docset : gmap string node;
  requests : list string;
  stderr : list string
}.

Definition set_pages (f : gset string → gset string) (st : state) : state :=
  mkState (f (pages st)) (assets st) (done_pages st) (files st) (docset st)
    (requests st) (stderr st).
Definition set_assets (f : gset string → gset string) (st : state) : state :=
  mkState (pages st) (f (assets st)) (done_pages st) (files st) (docset st)
    (requests st) (stderr st).
Definition set_done_pages (f : gset string → gset string) (st : state) : state :=
  mkState (pages st) (assets st) (f (done_pages st)) (files st) (docset st)
    (requests st) (stderr st).
Definition set_files (f : gmap string node → gmap string node) (st : state) : state :=
  mkState (pages st) (assets st) (done_pages st) (f (files st)) (docset st)
    (requests st) (stderr st).
Definition set_docset (f : gmap string node → gmap string node) (st : state) : state :=
  mkState (pages st) (assets st) (done_pages st) (files st) (f (docset st))
    (requests st) (stderr st).
Definition set_requests (f : list string → list string) (st : state) : state :=
  mkState (pages st) (assets st) (done_pages st) (files st) (docset st)
    (f (requests st)) (stderr st).
Definition set_stderr (f : list string → list string) (st : state) : state :=
  mkState (pages st) (assets st) (done_pages st) (files st) (docset st)
    (requests st) (f (stderr st)).

(** [TMP_DIR / Path(path).relative_to("/")]. *)
Definition tmp_path_of (path : string) : result string :=
  rel ← Pathlib.relative_to_root path;
  Ok (Pathlib.to_string (TMP_DIR ++ rel)).

(** [(DOCUMENTS_DIR / tmp_path.relative_to(TMP_DIR)).with_suffix(".html")]. *)
Definition docset_path_of (path : string) : result string :=
  rel ← Pathlib.relative_to_root path;
  Ok (Pathlib.to_string (Pathlib.with_suffix (DOCUMENTS_DIR ++ rel) ".html")).

(** One turn of the loop of [crawl_pages], lines 276-285: what was
    yielded, if anything, and the state at the next test of the loop. *)
Inductive turn : Type :=
| Next (yielded : option (option string * string)) (st : state)
| Abort (e : exn).

(** How a run of the generator ends. *)
Inductive outcome (C : Type) : Type :=
| Finished (st : state) (c : C)
| Crashed (e : exn)
| OutOfFuel.
Arguments Finished {C} st c.
Arguments Crashed {C} e.
Arguments OutOfFuel {C}.

Section Crawl.

(** The remote site. *)
Variable site : string → response.

Definition download_document (path : string) (st : state) : result string * state :=
  match tmp_path_of path with
  | Raise e => (Raise e, st)
  | Ok tmp_path =>
      match files st !! tmp_path with
      | Some _ => (Ok tmp_path, st)
      | None =>
          let url := BASE_URL +:+ path in
          let r := site path in
          let st := set_requests (λ l, l ++ [path]) st in
          match raise_for_status url r with
          | Raise e => (Raise e, st)
          | Ok _ => (Ok tmp_path, set_files (insert tmp_path (content r)) st)
          end
      end
  end.

(** [open(path)]. *)
Definition read_file (path : string) (st : state) : result node :=
  match files st !! path with
  | Some d => Ok d
  | None => Raise FileNotFoundError
  end.

(** The search [soup("link", rel="stylesheet")]. *)
Definition stylesheet_link (n : node) : bool :=
  named "link" n &&
  match get n "rel" with
  | None => false
  | Some v =>
      existsb (String.eqb "stylesheet") (tokens v)
      || String.eqb (Py.join " " (tokens v)) "stylesheet"
  end.

(** [soup.html.insert(0, Comment(comment))]. *)
Definition insert_online_comment (page : string) (soup : node) : result node :=
  let param := Py.removeprefix page "/Content/" in
  let comment := "Online page at https://help.dyalog.com/latest/#" +:+ param in
  match update_first (named "html")
          (λ h, Tag (name_of h) (attrs_of h) (Comment comment :: contents_of h)) soup with
  | Some soup' => Ok soup'
  | None => Raise AttributeError
  end.

(** [soup.title.string]. *)
Definition title_string (soup : node) : result (option string) :=
  match find (named "title") soup with
  | Some t => Ok (string_of t)
  | None => Raise AttributeError
  end.

(** What [download_and_process_page] computes from the parsed page, in the
    order of the source: the links, the assets, the sanitized document and
    the title. *)
Record processed := mkProcessed {
  links : list string;
  asset_refs : list string;
  written : node;
  title : option string
}.

Definition process_page (page : string) (soup : node) : result processed :=
  anchors ← find_all_r is_relative_link soup;
  page_links ← rmapM (λ x, h ← getitem x "href"; resolve_url page h) anchors;
  sheets ← rmapM (λ x, h ← getitem x "href"; resolve_url page h)
             (find_all stylesheet_link soup);
  images ← rmapM (λ x, h ← getitem x "src"; resolve_url page h)
             (find_all (named "img") soup);
  soup ← sanitize_html soup;
  soup ← insert_online_comment page soup;
  t ← title_string soup;
  Ok (mkProcessed page_links (sheets ++ images) soup t).

Definition download_and_process_page (page : string) (st : state)
    : result (option string) * state :=
  match download_document page st with
  | (Raise e, st) => (Raise e, st)
  | (Ok tmp_path, st) =>
      match
        docset_path ← docset_path_of page;
        soup ← read_file tmp_path st;
        r ← process_page page soup;
        Ok (docset_path, r)
      with
      | Raise e => (Raise e, st)
      | Ok (docset_path, r) =>
          let st := set_pages (λ s, s ∪ list_to_set (links r)) st in
          let st := set_assets (λ s, s ∪ list_to_set (asset_refs r)) st in
          let st := set_docset (insert docset_path (written r)) st in
          (Ok (title r), st)
      end
  end.

(** [set.pop()] removes an arbitrary element: which one is left to [pop],
    a function of all that happened so far. *)
Variable pop : state → string.

Definition valid_pop : Prop := ∀ st, pages st ≠ ∅ → pop st ∈ pages st.

(** Lines 282-283. *)
Definition mark_done (page : string) (st : state) : state :=
  let st := set_done_pages (λ s, s ∪ {[page]}) st in
  set_pages (λ s, s ∖ done_pages st) st.

Definition crawl_turn (st : state) : turn :=
  let page := pop st in
  let st := set_pages (λ s, s ∖ {[page]}) st in
  match download_and_process_page page st with
  | (Ok t, st) => Next (Some (t, page)) (mark_done page st)
  | (Raise (HTTPError msg), st) =>
      Next None (mark_done page (set_stderr (λ l, l ++ ["Download failed: " +:+ msg]) st))
  | (Raise e, _) => Abort e
  end.

(** The loop of [crawl_pages] driven by the consumer of the generator:
    [consume] is what the caller does with a yielded pair before it asks
    for the next one; an exception of the caller ends the run. *)
Fixpoint crawl_loop {C} (consume : option string * string → C → result C)
    (fuel : nat) (st : state) (c : C) : outcome C :=
  if bool_decide (pages st = ∅) then Finished st c
  else
    match fuel with
    | O => OutOfFuel
    | S fuel' =>
        match crawl_turn st with
        | Abort e => Crashed e
        | Next None st' => crawl_loop consume fuel' st' c
        | Next (Some y) st' =>
            match consume y c with
            | Raise e => Crashed e
            | Ok c' => crawl_loop consume fuel' st' c'
            end
        end
    end.

(** Line 273. *)
Definition crawl_start (st : state) : state :=
  set_done_pages (λ _, {["/index.htm"]}) st.

Definition crawl_pages {C} (consume : option string * string → C → result C)
    (fuel : nat) (queues : state) (c : C) : outcome C :=
  crawl_loop consume fuel (crawl_start queues) c.

End Crawl.

(** ** The index builder and the run *)

(** Line 301. *)
Definition index_path (path : string) : string :=
  Py.removesuffix path ".htm" +:+ ".html".

(** A row of [searchIndex]: name, type, path.  The name is [None] when
    the title of the page has no single string. *)
Definition row : Type := option string * string * string.

(** [get_entry_type(path, title)] for the title [soup.title.string]
    gave: [" Event" in None] raises [TypeError]. *)
Definition entry_type_of (path : string) (t : option string) : result string :=
  match t with
  | Some s => get_entry_type path s
  | None =>
      if Py.contains METHOD_OR_EVENTS path then Raise TypeError
      else get_entry_type path ""
  end.

Definition row_eqb (r1 r2 : row) : bool :=
  bool_decide (r1 = r2).

(** [INSERT OR IGNORE] under the unique index on the three columns; rows
    with a null name never collide. *)
Definition insert_or_ignore (r : row) (table : list row) : list row :=
  match r with
  | (None, _, _) => table ++ [r]
  | _ => if existsb (row_eqb r) table then table else table ++ [r]
  end.

(** The body of the loop of [create_docset_index], lines 301-305. *)
Definition index_pair (y : option string * string) (table : list row) : result (list row) :=
  let path := index_path (snd y) in
  ty ← entry_type_of path (fst y);
  Ok (insert_or_ignore (fst y, ty, path) table).

Fixpoint index_all (l : list (option string * string)) (table : list row) : result (list row) :=
  match l with
  | [] => Ok table
  | y :: l' => table' ← index_pair y table; index_all l' table'
  end.

Section Run.

Variable site : string → response.
Variable pop : state → string.

(** Lines 332-336: the assets are fetched and copied as they are. *)
Fixpoint download_assets (l : list string) (st : state) : result unit * state :=
  match l with
  | [] => (Ok (), st)
  | asset :: l' =>
      match download_document site asset st with
      | (Raise e, st) => (Raise e, st)
      | (Ok tmp_path, st) =>
          match
            rel ← Pathlib.relative_to_root asset;
            d ← read_file tmp_path st;
            Ok (Pathlib.to_string (DOCUMENTS_DIR ++ rel), d)
          with
          | Raise e => (Raise e, st)
          | Ok (docset_path, d) => download_assets l' (set_docset (insert docset_path d) st)
          end
      end
  end.

(** Lines 327-336 of [main], from the seeds the scrapers return: the
    pages of the table of contents [toc] and the symbol table [ride_help];
    [disk] holds the files that [tmp] has from earlier runs.  The list of
    the assets is taken in the order of [elements]. *)
Definition main (fuel : nat) (toc : gset string) (ride_help : list (string * string))
    (disk : gmap string node) : outcome (list row) :=
  let queues :=
    mkState (toc ∪ list_to_set (snd <$> ride_help)) ∅ ∅ disk ∅ [] [] in
  match crawl_pages site pop index_pair fuel queues [] with
  | Finished st table =>
      match index_all ((λ kv, (Some (fst kv), snd kv)) <$> ride_help) table with
      | Raise e => Crashed e
      | Ok table =>
          match download_assets (elements (assets st)) st with
          | (Raise e, _) => Crashed e
          | (Ok _, st) => Finished st table
          end
      end
  | Crashed e => Crashed e
  | OutOfFuel => OutOfFuel
  end.

End Run.

(** ** Sample pages and sites *)

(** A page with a title and a body, as the parser builds it. *)
Definition html_page (title_text : string) (body : list node) : node :=
  Tag "[document]" []
    [Tag "html" []
       [Tag "head" [] [Tag "title" [] [NavigableString title_text]];
        Tag "body" [] body]].

Definition hyperlink (href text : string) : node :=
  Tag "a" [("href", href)] [NavigableString text].

(** The sanitized [html_page], with the comment of line 264 for [page]. *)
Definition written_page (page title_text : string) (body : list node) : node :=
  Tag "[document]" []
    [Tag "html" []
       [Comment ("Online page at https://help.dyalog.com/latest/#" +:+ page);
        Tag "head" [] [Tag "title" [] [NavigableString title_text]];
        Tag "body" [] body]].

Definition not_found : response := mkResponse 404 "Not Found" (NavigableString "").

Definition ok (d : node) : response := mkResponse 200 "OK" d.

(** A site given by the list of its pages; every other path is answered
    with 404. *)
Fixpoint site_of (table : list (string * response)) (path : string) : response :=
  match table with
  | [] => not_found
  | (p, r) :: table' => if String.eqb p path then r else site_of table' path
  end.

(** A [pop] that takes the first element of the set as listed. *)
Definition pop_first (st : state) : string :=
  default "" (head (elements (pages st))).

(** A [pop] that takes the last one. *)
Definition pop_last (st : state) : string :=
  List.last (elements (pages st)) "".

(** A consumer that keeps what the generator yields, [list(crawl_pages(q))]. *)
Definition collect (y : option string * string) (l : list (option string * string))
    : result (list (option string * string)) :=
  Ok (l ++ [y]).

Definition empty_queues : state := mkState ∅ ∅ ∅ ∅ ∅ [] [].

(** The page [/Content/a/b.htm] with the one link [x.htm#frag]. *)
Definition page_b : node := html_page "B" [hyperlink "x.htm#frag" "x"].

(** Two seed pages; [a.htm] links to [b.htm] and to another site. *)
Definition two_page_site : string → response :=
  site_of
    [("/Content/a.htm",
      ok (html_page "A" [hyperlink "b.htm" "b"; hyperlink "http://example.com" "elsewhere"]));
     ("/Content/b.htm", ok (html_page "B" []))].

(** A page that shows an image kept on another site. *)
Definition page_with_remote_image : node :=
  html_page "Logo" [Tag "img" [("src", "http://example.com/logo.png")] []].

Definition remote_image_site : string → response :=
  site_of [("/Content/logo.htm", ok page_with_remote_image)].

(** A site that has lost the page [/Content/gone.htm]. *)
Definition gone_site : string → response := site_of [].

(** The queues at the start of a crawl from the given seed pages, with an
    empty disk. *)
Definition seeds (l : list string) : state :=
  mkState (list_to_set l) ∅ ∅ ∅ ∅ [] [].

(** What is left to see of a finished run: the yielded pairs, the requests
    in the order they were sent, the pages done, the assets queued, and
    the error stream. *)
Definition summary {C} (o : outcome C)
    : option (C * list string * list string * list string * list string) :=
  match o with
  | Finished st c =>
      Some (c, requests st, elements (done_pages st), elements (assets st), stderr st)
  | _ => None
  end.

(** ** Runs of the crawl *)

(** [reach site pop st0 popped yielded st]: in a run of the loop of
    [crawl_pages] that is at the test of the loop in state [st0], the loop
    can later be at its test in state [st], after it has popped the pages
    [popped] and yielded the pairs [yielded], in this order. *)
Inductive reach (site : string → response) (pop : state → string) (st0 : state)
    : list string → list (option string * string) → state → Prop :=
| reach_start : reach site pop st0 [] [] st0
| reach_turn popped yielded st y st' :
    reach site pop st0 popped yielded st →
    pages st ≠ ∅ →
    crawl_turn site pop st = Next y st' →
    reach site pop st0 (popped ++ [pop st]) (yielded ++ option_list y) st'.

(** A site with one page that links to a page that is gone and to itself. *)
Definition gone_link_site : string → response :=
  site_of
    [("/Content/UserGuide/a.htm",
      ok (html_page "A" [hyperlink "gone.htm" "gone"; hyperlink "a.htm" "self";
                         hyperlink "/index.htm" "top"]))].

(** The state of the crawl of the two seed pages of [two_page_site] at the
    first test of the loop, and at the second one when [pop_first] pops. *)
Definition two_page_start : state :=
  crawl_start (seeds ["/Content/a.htm"; "/Content/b.htm"]).

Definition two_page_second : state :=
  match crawl_turn two_page_site pop_first two_page_start with
  | Next _ st => st
  | Abort _ => two_page_start
  end.

(** The crawl of [gone_link_site] from its one page. *)
Definition gone_link_start : state :=
  crawl_start (seeds ["/Content/UserGuide/a.htm"]).

Definition gone_link_second : state :=
  match crawl_turn gone_link_site pop_first gone_link_start with
  | Next _ st => st
  | Abort _ => gone_link_start
  end.

(** ** Anchors and runs of headings *)

(** The anchors the sanitizer inserts: the tags [a] of class [dashAnchor]. *)
Definition is_dash_anchor (n : node) : bool :=
  named "a" n && Urllib.mem "dashAnchor" (get_list n "class").

(** The name and the attributes of a tag. *)
Definition tag_head (n : node) : string * list (string * string) :=
  (name_of n, attrs_of n).

(** The number of maximal runs of equal consecutive keys, after the words
    of the specification: a run starts at the first key and at every key
    that differs from the key before it. *)
Fixpoint count_runs (keys : list string) : nat :=
  match keys with
  | [] => 0
  | k :: rest =>
      match rest with
      | [] => 1
      | k' :: _ => (if String.eqb k k' then 0 else 1) + count_runs rest
      end
  end.

(** The key of the last heading of [l], [prev] when [l] is empty. *)
Fixpoint last_key (prev : option string) (l : list node) : option string :=
  match l with
  | [] => prev
  | x :: l' => last_key (Some (heading_key x)) l'
  end.

(** The document when line 206 is reached: lines 195-205 of
    [sanitize_html]. *)
Definition before_anchors (soup : node) : result node :=
  let soup := remove_furniture soup in
  soup ← del_body_onload soup;
  let soup := remove_scripts soup in
  patch_links soup.

(** A page with two headings in a row that have the same text. *)
Definition twin_headings_page : node :=
  html_page "Twins"
    [Tag "h4" [] [NavigableString "Syntax"];
     Tag "p" [] [NavigableString "R←X f Y"];
     Tag "h4" [] [NavigableString "Syntax:"]].

(** A page with three headings, the first two with the same text. *)
Definition three_headings_page : node :=
  html_page "Three"
    [Tag "h4" [] [NavigableString "Syntax"];
     Tag "h4" [] [NavigableString " Syntax: "];
     Tag "h5" [] [NavigableString "Remarks"]].

(** The heads of the anchors of the document after [insert_anchors], read
    off the nodes [l] of the document before it, in document order: a
    heading that starts a run contributes its new anchor, and an anchor
    that was there already stays.  [prev] is the key of the last heading
    before [l]. *)
Fixpoint anchors_after (prev : option string) (l : list node)
    : list (string * list (string * string)) :=
  match l with
  | [] => []
  | d :: l' =>
      let hit := is_tag d && is_section_heading d in
      (if hit && negb (bool_decide (prev = Some (heading_key d)))
       then [tag_head (dash_anchor d)] else [])
      ++ (if is_tag d && is_dash_anchor d then [tag_head d] else [])
      ++ anchors_after (if hit then Some (heading_key d) else prev) l'
  end.

(** The key of the last section heading among the nodes [l], [prev] when
    there is none. *)
Fixpoint key_after (prev : option string) (l : list node) : option string :=
  match l with
  | [] => prev
  | d :: l' =>
      key_after (if is_tag d && is_section_heading d then Some (heading_key d) else prev) l'
  end.

(** ** What the sanitizer keeps *)

(** What a search by name or by attribute looks at in a node. *)
Definition node_head (n : node) : bool * string * list (string * string) :=
  (is_tag n, name_of n, attrs_of n).

(** [Q] holds of the head of every node below [n]. *)
Definition all_below (Q : bool * string * list (string * string) → Prop) (n : node) : Prop :=
  Forall (λ d, Q (node_head d)) (descendants n).

(** The test of a search that looks at the head only. *)
Definition by_head (p : node → bool) : Prop :=
  ∀ d d', node_head d = node_head d' → p d = p d'.

(** No [a] tag has [.htm] in its [href]. *)
Definition no_htm_href (h : bool * string * list (string * string)) : Prop :=
  ∀ href, snd (fst h) = "a" → attr_get "href" (snd h) = Some href →
          Py.contains ".htm" href = false.

(** A page without headings whose only link does not end in [.htm]. *)
Definition plain_page : node :=
  html_page "Plain" [hyperlink "notes.txt" "notes"; Tag "h4" [] [NavigableString "Remarks"]].

(** The test [p] fails on every node with the head [h]. *)
Definition head_fails (p : node → bool) (h : bool * string * list (string * string)) : Prop :=
  ∀ d, node_head d = h → p d = false.

(** The test of the link search raises nothing on a node with the head [h]. *)
Definition head_parses (h : bool * string * list (string * string)) : Prop :=
  ∀ d, node_head d = h → is_ok (is_relative_link d) = true.

(** [Q] is not lost when the sanitizer deletes [onload], rewrites an
    [href] or inserts an anchor. *)
Definition stable (Q : bool * string * list (string * string) → Prop) : Prop :=
  (∀ nm a, Q (true, nm, a) → Q (true, nm, attr_del "onload" a))
  ∧ (∀ nm a, Q (true, nm, a) → Q (true, nm, patch_href a))
  ∧ (∀ x, Q (node_head (dash_anchor x))).

(** [plain_page] as the site serves it, with its furniture and scripts. *)
Definition raw_plain_page : node :=
  Tag "[document]" []
    [Tag "html" []
       [Tag "head" []
          [Tag "title" [] [NavigableString "Plain"];
           Tag "script" [("src", "../Skins/Default/Scripts/help.js")] []];
        Tag "body" [("onload", "init()")]
          [Tag "div" [("class", "nocontent breadcrumbs")] [NavigableString "You are here:"];
           hyperlink "notes.txt" "notes";
           Tag "h4" [] [NavigableString "Remarks"];
           Tag "script" [] [Comment "init();"]]]].

(** ** Sites that can be crawled to the end *)

(** The site answers the request for [q] with a status that
    [raise_for_status] accepts. *)
Definition fetched_ok (site : string → response) (q : string) : bool :=
  is_ok (raise_for_status (BASE_URL +:+ q) (site q)).

(** The cache file of [q] is [k]. *)
Definition cached_at (k q : string) : bool :=
  match tmp_path_of q with
  | Ok k' => String.eqb k' k
  | Raise _ => false
  end.

(** The documents the crawl may read for the page [p] when it visits
    pages of [universe] only: what [disk] has at the cache path of [p],
    and what the site serves for a page of [universe] with that cache path. *)
Definition readable_docs (site : string → response) (disk : gmap string node)
    (universe : gset string) (p : string) : list node :=
  match tmp_path_of p with
  | Raise _ => []
  | Ok k =>
      option_list (disk !! k)
      ++ ((λ q, content (site q))
          <$> List.filter (λ q, fetched_ok site q && cached_at k q) (elements universe))
  end.

(** [process_page] returns on the document [d] read for [p], with links
    into [universe] only, and with a result that passes [check]. *)
Definition page_ok (check : string → processed → bool) (universe : gset string)
    (p : string) (d : node) : bool :=
  match process_page p d with
  | Ok r => forallb (λ u, bool_decide (u ∈ universe)) (links r) && check p r
  | Raise _ => false
  end.

(** Every page of [universe] has a cache path, and whatever may be read
    for it can be processed, links into [universe] and passes [check].
    Nothing is asked of the status the site answers with. *)
Definition crawlable (check : string → processed → bool) (site : string → response)
    (disk : gmap string node) (universe : gset string) : bool :=
  forallb (λ p, is_ok (tmp_path_of p)
                && forallb (page_ok check universe p)
                     (readable_docs site disk universe p))
    (elements universe).

(** The pending pages are in [universe], the cache holds what [disk] held
    or what the site serves for a page of [universe], and the queued
    assets come from pages that pass [check]. *)
Definition in_universe (check : string → processed → bool) (site : string → response)
    (disk : gmap string node) (universe : gset string) (st : state) : Prop :=
  pages st ⊆ universe
  ∧ (∀ k d, files st !! k = Some d →
       disk !! k = Some d
       ∨ ∃ q, q ∈ universe ∧ fetched_ok site q = true
              ∧ tmp_path_of q = Ok k ∧ d = content (site q))
  ∧ ∀ a, a ∈ assets st →
      ∃ p d r, p ∈ universe ∧ In d (readable_docs site disk universe p)
               ∧ process_page p d = Ok r ∧ check p r = true ∧ In a (asset_refs r).

(** No further check. *)
Definition any_page (p : string) (r : processed) : bool := true.

(** The asset [a] has a cache path and the site serves it. *)
Definition asset_ok (site : string → response) (a : string) : bool :=
  is_ok (tmp_path_of a) && fetched_ok site a.

(** The assets of the page can be fetched, and the page can be classified. *)
Definition run_check (site : string → response) (p : string) (r : processed) : bool :=
  forallb (asset_ok site) (asset_refs r)
  && is_ok (entry_type_of (index_path p) (title r)).

(** The entries of the symbol table can be classified. *)
Definition ride_help_ok (ride_help : list (string * string)) : bool :=
  forallb (λ kv, is_ok (get_entry_type (index_path (snd kv)) (fst kv))) ride_help.

(** * Properties *)

(** ** Strings *)

Lemma prefix_append (p s : string) : String.prefix p (p +:+ s) = true.
Proof.
  induction p as [|c p IH]; simpl.
  - by destruct s.
  - destruct (ascii_dec c c); [exact IH | congruence].
Qed.

Lemma prefix_split (p s : string) :
  String.prefix p s = true → ∃ t, s = p +:+ t.
Proof.
  revert s; induction p as [|c p IH]; intros s H.
  - by exists s.
  - destruct s as [|d s]; simpl in H; [discriminate|].
    destruct (ascii_dec c d) as [->|]; [|discriminate].
    destruct (IH _ H) as [t ->]. by exists t.
Qed.

Lemma contains_nil (sub : string) :
  Py.contains sub "" = String.prefix sub "" || false.
Proof. done. Qed.

Lemma contains_cons (sub : string) (c : ascii) (s : string) :
  Py.contains sub (String c s) = String.prefix sub (String c s) || Py.contains sub s.
Proof. done. Qed.

Lemma contains_spec (sub s : string) :
  Py.contains sub s = true ↔ ∃ a b, s = a +:+ sub +:+ b.
Proof.
  split.
  - induction s as [|c s IH]; intros H.
    + rewrite contains_nil, orb_false_r in H.
      destruct (prefix_split _ _ H) as [t Ht]. by exists "", t.
    + rewrite contains_cons in H. apply orb_true_iff in H as [H|H].
      * destruct (prefix_split _ _ H) as [t Ht]. by exists "", t.
      * destruct (IH H) as (a & b & ->). by exists (String c a), b.
  - intros (a & b & ->). induction a as [|c a IH].
    + change ("" +:+ sub +:+ b) with (sub +:+ b).
      destruct (sub +:+ b) as [|c r] eqn:E.
      * rewrite contains_nil, <- E, prefix_append. done.
      * rewrite contains_cons, <- E, prefix_append. done.
    + change (String c a +:+ sub +:+ b) with (String c (a +:+ sub +:+ b)).
      rewrite contains_cons, IH. apply orb_true_r.
Qed.

Lemma append_assoc (a b c : string) : (a +:+ b) +:+ c = a +:+ b +:+ c.
Proof.
  induction a as [|x a IH]; [done|].
  change (String x ((a +:+ b) +:+ c) = String x (a +:+ b +:+ c)). by rewrite IH.
Qed.

Lemma contains_trans (a b c : string) :
  Py.contains a b = true → Py.contains b c = true → Py.contains a c = true.
Proof.
  rewrite !contains_spec. intros (x & y & ->) (u & v & ->).
  exists (u +:+ x), (y +:+ v). by rewrite !append_assoc.
Qed.

(** ** The entry classifier *)

Lemma next_match_first (table : list (string * string)) (path v : string) :
  next_match table path = Ok v ↔
  ∃ before k after,
    table = before ++ (k, v) :: after ∧
    Py.contains k path = true ∧
    Forall (λ kv, Py.contains (fst kv) path = false) before.
Proof.
  induction table as [|[k w] table IH]; simpl.
  - split; [discriminate|]. intros (before & k & after & E & _). by destruct before.
  - destruct (Py.contains k path) eqn:Hk.
    + split.
      * intros [= ->]. exists [], k, table. by repeat split.
      * intros (before & k' & after & E & Hk' & Hb).
        destruct before as [|[k0 w0] before]; simplify_eq/=; [done|].
        inversion Hb; simplify_eq/=. congruence.
    + rewrite IH. split.
      * intros (before & k' & after & -> & Hk' & Hb).
        exists ((k, w) :: before), k', after. repeat split; [done|].
        by constructor.
      * intros (before & k' & after & E & Hk' & Hb).
        destruct before as [|[k0 w0] before]; simplify_eq/=; [congruence|].
        inversion Hb; simplify_eq/=. by exists before, k', after.
Qed.

Lemma next_match_none (table : list (string * string)) (path : string) :
  Forall (λ kv, Py.contains (fst kv) path = false) table →
  next_match table path = Raise StopIteration.
Proof.
  induction 1 as [|[k v] table Hk _ IH]; simpl in *; [done|]. by rewrite Hk.
Qed.

(** C4, as the code has it.  The special cases come before the table.  On
    a path with [GUI/MethodOrEvents] the type is [Event] when the title
    contains [" Event"] (the word with a space before it) and [Method]
    otherwise, so [Click Event] is an [Event] and [Click] a [Method].  On a
    path without [GUI/MethodOrEvents] that has the configuration-parameters
    segment the type is [Setting], although [UserGuide] occurs in the path
    too.  On every other path the type is that of the first key of the
    table that occurs in the path. *)
Theorem get_entry_type_precedence (path title : string) :
  (Py.contains "GUI/MethodOrEvents" path = true →
     get_entry_type path title
       = Ok (if Py.contains " Event" title then "Event" else "Method")
     ∧ get_entry_type path "Click Event" = Ok "Event"
     ∧ get_entry_type path "Click" = Ok "Method")
  ∧ (Py.contains "GUI/MethodOrEvents" path = false →
     Py.contains "UserGuide/Installation and Configuration/Configuration Parameters"
       path = true →
     get_entry_type path title = Ok "Setting"
     ∧ Py.contains "UserGuide" path = true
     ∧ In ("UserGuide", "Guide") ENTRY_TYPES)
  ∧ (Py.contains "GUI/MethodOrEvents" path = false →
     Py.contains "UserGuide/Installation and Configuration/Configuration Parameters"
       path = false →
     ∀ v, get_entry_type path title = Ok v ↔
       ∃ before k after,
         ENTRY_TYPES = before ++ (k, v) :: after ∧
         Py.contains k path = true ∧
         Forall (λ kv, Py.contains (fst kv) path = false) before).
Proof.
  unfold get_entry_type, METHOD_OR_EVENTS, CONFIGURATION_PARAMETERS.
  split; [|split].
  - intros ->. done.
  - intros -> H. rewrite H. split; [done|]. split.
    + by apply (contains_trans "UserGuide" CONFIGURATION_PARAMETERS path).
    + unfold ENTRY_TYPES. simpl. tauto.
  - intros -> ->. intros v. apply next_match_first.
Qed.

Lemma get_entry_type_precedence_witness :
  get_entry_type "/Content/GUI/MethodOrEvents/click.html" "Click Event" = Ok "Event"
  ∧ get_entry_type
      "/Content/UserGuide/Installation and Configuration/Configuration Parameters/aplnid.html"
      "APLNID" = Ok "Setting"
  ∧ get_entry_type "/Content/Language/Errors/index error.html" "INDEX ERROR" = Ok "Error".
Proof.
  split; [|split].
  - exact (proj1 (proj2 (proj1 (get_entry_type_precedence
             "/Content/GUI/MethodOrEvents/click.html" "Click Event") eq_refl))).
  - exact (proj1 (proj1 (proj2 (get_entry_type_precedence
             "/Content/UserGuide/Installation and Configuration/Configuration Parameters/aplnid.html"
             "APLNID")) eq_refl eq_refl)).
  - apply (proj2 (get_entry_type_precedence
             "/Content/Language/Errors/index error.html" "INDEX ERROR")); [done..|].
    eexists (firstn 28 ENTRY_TYPES), _, _. split; [reflexivity|].
    split; [reflexivity|]. repeat constructor.
Defined.

(** C4 as the specification words it fails twice.  A title that contains
    the word [Event] without a space before it is classified [Method]; and
    a path that has both special segments is not a [Setting]. *)
Lemma get_entry_type_word_event_counterexample :
  Py.contains "GUI/MethodOrEvents" "/Content/GUI/MethodOrEvents/event.html" = true
  ∧ Py.contains "Event" "Event" = true
  ∧ get_entry_type "/Content/GUI/MethodOrEvents/event.html" "Event" = Ok "Method"
  ∧ Py.contains "UserGuide/Installation and Configuration/Configuration Parameters"
      "/Content/UserGuide/Installation and Configuration/Configuration Parameters/GUI/MethodOrEvents/x.html"
    = true
  ∧ get_entry_type
      "/Content/UserGuide/Installation and Configuration/Configuration Parameters/GUI/MethodOrEvents/x.html"
      "X" = Ok "Method".
Proof. repeat split. Qed.

(** C5.  A path with no special segment and none of the keys of the table
    makes [get_entry_type] raise ([StopIteration], out of [next]); no type
    is returned.  The exception leaves [create_docset_index], so the run
    that yielded the page ends with it. *)
Theorem get_entry_type_miss_is_fatal (path title : string) :
  Py.contains "GUI/MethodOrEvents" path = false →
  Py.contains "UserGuide/Installation and Configuration/Configuration Parameters"
    path = false →
  Forall (λ kv, Py.contains (fst kv) path = false) ENTRY_TYPES →
  get_entry_type path title = Raise StopIteration
  ∧ (∀ v, get_entry_type path title ≠ Ok v)
  ∧ ∀ site pop fuel st st' t page table,
      pages st ≠ ∅ →
      crawl_turn site pop st = Next (Some (t, page)) st' →
      index_path page = path →
      crawl_loop site pop index_pair (S fuel) st table = Crashed StopIteration.
Proof.
  intros H1 H2 H3.
  assert (Hg : ∀ t', get_entry_type path t' = Raise StopIteration).
  { intros t'. unfold get_entry_type, METHOD_OR_EVENTS, CONFIGURATION_PARAMETERS.
    rewrite H1, H2. by apply next_match_none. }
  split; [apply Hg|]. split; [intros v; by rewrite Hg|].
  intros site pop fuel st st' t page table Hne Hturn Hpath.
  simpl. rewrite bool_decide_eq_false_2 by done. rewrite Hturn.
  unfold index_pair; simpl. rewrite Hpath.
  unfold entry_type_of. destruct t; [by rewrite Hg|].
  unfold METHOD_OR_EVENTS. by rewrite H1, Hg.
Qed.

Lemma get_entry_type_miss_is_fatal_witness :
  get_entry_type "/Content/Tutorial/intro.html" "Introduction" = Raise StopIteration.
Proof.
  refine (proj1 (get_entry_type_miss_is_fatal "/Content/Tutorial/intro.html"
                   "Introduction" eq_refl eq_refl _)).
  repeat constructor.
Defined.

(** ** Link resolution *)

(** C2.  The link [x.htm#frag] of the page [/Content/a/b.htm] passes the
    test of the extractor and resolves to [/Content/a/x.htm], which the
    index builder stores as [/Content/a/x.html].  The sanitizer rewrites the
    attribute on the page to [x.html#frag], which from the place of the
    page in the docset, [/Content/a/b.html], leads to the same
    [/Content/a/x.html]. *)
Theorem relative_link_round_trip :
  is_relative_href (Some "x.htm#frag") = Ok true
  ∧ resolve_url "/Content/a/b.htm" "x.htm#frag" = Ok "/Content/a/x.htm"
  ∧ links <$> process_page "/Content/a/b.htm" page_b = Ok ["/Content/a/x.htm"]
  ∧ index_path "/Content/a/x.htm" = "/Content/a/x.html"
  ∧ sanitize_html page_b = Ok (html_page "B" [hyperlink "x.html#frag" "x"])
  ∧ index_path "/Content/a/b.htm" = "/Content/a/b.html"
  ∧ resolve_url "/Content/a/b.html" "x.html#frag" = Ok "/Content/a/x.html".
Proof. repeat split; vm_compute; reflexivity. Qed.

(** ** The fetch cache *)

Lemma raise_for_status_exn (url : string) (r : response) (e : exn) :
  raise_for_status url r = Raise e → ∃ msg, e = HTTPError msg.
Proof.
  unfold raise_for_status. repeat case_match; intros [=]; subst; eauto.
Qed.

Lemma tmp_path_of_raise (path : string) (e : exn) :
  tmp_path_of path = Raise e → e = ValueError.
Proof.
  unfold tmp_path_of, Pathlib.relative_to_root.
  destruct (Pathlib.has_root path); simpl; congruence.
Qed.

Lemma download_document_hit (site : string → response) (path : string) (st : state)
    (k : string) :
  tmp_path_of path = Ok k → is_Some (files st !! k) →
  download_document site path st = (Ok k, st).
Proof. intros Hk [d Hd]. unfold download_document. by rewrite Hk, Hd. Qed.

Lemma download_document_ok_inv (site : string → response) (path : string)
    (st st' : state) (k : string) :
  download_document site path st = (Ok k, st') →
  tmp_path_of path = Ok k
  ∧ ((is_Some (files st !! k) ∧ st' = st)
     ∨ (files st !! k = None
        ∧ raise_for_status (BASE_URL +:+ path) (site path) = Ok ()
        ∧ st' = set_files (insert k (content (site path)))
                  (set_requests (λ l, l ++ [path]) st))).
Proof.
  unfold download_document.
  destruct (tmp_path_of path) as [k'|]; [|intros [=]].
  destruct (files st !! k') as [d|] eqn:Hd.
  - intros [= -> ->]. split; [done|]. left. eauto.
  - destruct (raise_for_status _ _) as [[]|] eqn:Hr; intros [= -> <-].
    split; [done|]. by right.
Qed.

Lemma download_document_raise_inv (site : string → response) (path : string)
    (st st' : state) (e : exn) :
  download_document site path st = (Raise e, st') →
  (e = ValueError ∧ tmp_path_of path = Raise ValueError ∧ st' = st)
  ∨ (∃ k msg, tmp_path_of path = Ok k ∧ files st !! k = None
       ∧ e = HTTPError msg
       ∧ raise_for_status (BASE_URL +:+ path) (site path) = Raise e
       ∧ st' = set_requests (λ l, l ++ [path]) st).
Proof.
  unfold download_document.
  destruct (tmp_path_of path) as [k'|e'] eqn:Hk.
  - destruct (files st !! k') as [d|] eqn:Hd; [intros [=]|].
    destruct (raise_for_status _ _) as [[]|e''] eqn:Hr; intros [= -> <-].
    right. destruct (raise_for_status_exn _ _ _ Hr) as [msg ->]. by exists k', msg.
  - intros [= -> ->]. left. by rewrite (tmp_path_of_raise _ _ Hk) in *.
Qed.

(** C8, as the code has it.  When the file of a URL is on disk the call
    returns its path and changes nothing: no request is sent.  A call that
    returns has sent at most one request and leaves the file on disk, so
    that every later call for the URL, as long as the file is there, is
    such a hit.  A fetch that fails with an HTTP error sends its request
    and writes no file. *)
Theorem download_document_cache (site : string → response) (path : string) (st : state) :
  (∀ k, tmp_path_of path = Ok k → is_Some (files st !! k) →
     download_document site path st = (Ok k, st))
  ∧ (∀ k st', download_document site path st = (Ok k, st') →
       tmp_path_of path = Ok k
       ∧ is_Some (files st' !! k)
       ∧ (requests st' = requests st ∨ requests st' = requests st ++ [path])
       ∧ ∀ st'', files st' ⊆ files st'' →
           download_document site path st'' = (Ok k, st''))
  ∧ (∀ msg st', download_document site path st = (Raise (HTTPError msg), st') →
       files st' = files st ∧ requests st' = requests st ++ [path]).
Proof.
  split; [intros k; apply download_document_hit|]. split.
  - intros k st' H. apply download_document_ok_inv in H as [Hk H].
    assert (Hin : is_Some (files st' !! k)).
    { destruct H as [[? ->]|(_ & _ & ->)]; [done|]. simpl.
      rewrite lookup_insert_eq. eauto. }
    repeat split; [done..| |].
    + destruct H as [[? ->]|(_ & _ & ->)]; eauto.
    + intros st'' Hsub. apply download_document_hit; [done|].
      destruct Hin as [d Hd]. exists d. by eapply lookup_weaken.
  - intros msg st' H. apply download_document_raise_inv in H as [(? & _)|H]; [done|].
    destruct H as (k & msg' & _ & _ & _ & _ & ->). done.
Qed.

Lemma download_document_cache_witness :
  let st := mkState ∅ ∅ ∅ {["tmp/Content/a.htm" := page_b]} ∅ [] [] in
  download_document gone_site "/Content/a.htm" st = (Ok "tmp/Content/a.htm", st).
Proof.
  intros st.
  apply (proj1 (download_document_cache gone_site "/Content/a.htm" st)).
  - reflexivity.
  - exists page_b. reflexivity.
Defined.

(** C8 as the specification words it fails when the fetch fails: no file
    is written, and the next call for the same URL is no hit but a second
    request. *)
Lemma download_document_refetch_counterexample :
  let '(r1, st1) := download_document gone_site "/Content/gone.htm" empty_queues in
  let '(r2, st2) := download_document gone_site "/Content/gone.htm" st1 in
  is_ok r1 = false ∧ is_ok r2 = false
  ∧ requests st1 = ["/Content/gone.htm"]
  ∧ requests st2 = ["/Content/gone.htm"; "/Content/gone.htm"].
Proof. vm_compute. done. Qed.

(** ** Link extraction *)

Lemma rbind_ok {A B} (c : result A) (k : A → result B) (b : B) :
  c ≫= k = Ok b → ∃ a, c = Ok a ∧ k a = Ok b.
Proof. destruct c as [a|e]; [by exists a | discriminate]. Qed.

Lemma rmapM_ok {A B} (f : A → result B) (l : list A) (ys : list B) :
  rmapM f l = Ok ys → Forall2 (λ x y, f x = Ok y) l ys.
Proof.
  revert ys; induction l as [|x l IH]; intros ys; simpl.
  - intros [= <-]. constructor.
  - intros H. apply rbind_ok in H as (y & Hy & H).
    apply rbind_ok in H as (ys' & Hys & [= <-]). constructor; auto.
Qed.

Lemma filter_r_ok (p : node → result bool) (l r : list node) :
  filter_r p l = Ok r →
  r = List.filter (λ d, match p d with Ok b => b | Raise _ => false end) l.
Proof.
  revert r; induction l as [|x l IH]; intros r; simpl.
  - by intros [= <-].
  - intros H. apply rbind_ok in H as (b & Hb & H).
    apply rbind_ok in H as (r' & Hr & [= <-]). rewrite Hb, (IH _ Hr).
    by destruct b.
Qed.

Lemma find_all_r_relative_links (soup : node) (anchors : list node) :
  find_all_r is_relative_link soup = Ok anchors →
  anchors = List.filter relative_link (List.filter is_tag (descendants soup)).
Proof. intros H. by apply filter_r_ok in H. Qed.

Lemma process_page_inv (page : string) (soup : node) (r : processed) :
  process_page page soup = Ok r →
  ∃ sheets images sanitized,
    rmapM (λ x, h ← getitem x "href"; resolve_url page h)
      (List.filter relative_link (List.filter is_tag (descendants soup)))
      = Ok (links r)
    ∧ rmapM (λ x, h ← getitem x "href"; resolve_url page h)
        (find_all stylesheet_link soup) = Ok sheets
    ∧ rmapM (λ x, h ← getitem x "src"; resolve_url page h)
        (find_all (named "img") soup) = Ok images
    ∧ asset_refs r = sheets ++ images
    ∧ sanitize_html soup = Ok sanitized
    ∧ insert_online_comment page sanitized = Ok (written r)
    ∧ title_string (written r) = Ok (title r).
Proof.
  unfold process_page. intros H.
  apply rbind_ok in H as (anchors & Ha & H).
  apply rbind_ok in H as (page_links & Hl & H).
  apply rbind_ok in H as (sheets & Hs & H).
  apply rbind_ok in H as (images & Hi & H).
  apply rbind_ok in H as (s1 & Hs1 & H).
  apply rbind_ok in H as (s2 & Hs2 & H).
  apply rbind_ok in H as (t & Ht & [= <-]). simpl.
  apply find_all_r_relative_links in Ha as ->.
  by exists sheets, images, s1.
Qed.

Lemma download_and_process_page_ok_inv (site : string → response) (page : string)
    (st st' : state) (t : option string) :
  download_and_process_page site page st = (Ok t, st') →
  ∃ tmp_path docset_path st1 soup r,
    download_document site page st = (Ok tmp_path, st1)
    ∧ docset_path_of page = Ok docset_path
    ∧ files st1 !! tmp_path = Some soup
    ∧ process_page page soup = Ok r
    ∧ t = title r
    ∧ st' = set_docset (insert docset_path (written r))
              (set_assets (λ s, s ∪ list_to_set (asset_refs r))
                 (set_pages (λ s, s ∪ list_to_set (links r)) st1)).
Proof.
  unfold download_and_process_page.
  destruct (download_document site page st) as [[k|e] st1] eqn:Hd; [|intros [=]].
  destruct (docset_path_of page) as [dp|] eqn:Hdp; simpl; [|intros [=]].
  unfold read_file. destruct (files st1 !! k) as [soup|] eqn:Hf; simpl; [|intros [=]].
  destruct (process_page page soup) as [r|] eqn:Hp; simpl; [|intros [=]].
  intros [= <- <-]. by exists k, dp, st1, soup, r.
Qed.

Lemma relative_link_inv (x : node) :
  relative_link x = true →
  named "a" x = true ∧ is_relative_href (get x "href") = Ok true.
Proof.
  unfold relative_link, is_relative_link.
  destruct (named "a" x); [|discriminate].
  destruct (is_relative_href _) as [[]|]; done.
Qed.

(** C9, as the code has it.  A reference passes the test of the link
    extractor exactly when it is present, has no network location, and
    starts with neither [javascript:] nor [mailto:].  So a hyperlink whose
    target is on another site, such as [http://example.com], is passed
    over: every URL a page adds to the page queue is the resolution of the
    [href] of one of its [a] tags that passed the test, and in the crawl of
    the two seed pages of [two_page_site] the other site is neither queued
    nor fetched.  The references of images and style sheets go to the
    asset queue without this test. *)
Theorem link_extraction_same_origin (href : option string) :
  (is_relative_href href = Ok true ↔
     ∃ h r, href = Some h ∧ Urllib.urlparse h "" = Ok r
            ∧ Urllib.netloc r = ""
            ∧ Py.startswith h "javascript:" = false
            ∧ Py.startswith h "mailto:" = false)
  ∧ (∀ x h r, named "a" x = true → get x "href" = Some h →
       Urllib.urlparse h "" = Ok r → Urllib.netloc r ≠ "" →
       is_relative_link x = Ok false)
  ∧ (∀ site page st st' t u,
       download_and_process_page site page st = (Ok t, st') →
       u ∈ pages st' →
       u ∈ pages st
       ∨ ∃ tmp_path st1 soup x h,
           download_document site page st = (Ok tmp_path, st1)
           ∧ files st1 !! tmp_path = Some soup
           ∧ In x (descendants soup) ∧ named "a" x = true
           ∧ get x "href" = Some h
           ∧ is_relative_href (Some h) = Ok true
           ∧ resolve_url page h = Ok u)
  ∧ (∀ pop, pop = pop_first ∨ pop = pop_last →
       ∃ yielded sent,
         summary (crawl_pages two_page_site pop collect 5
                    (seeds ["/Content/a.htm"; "/Content/b.htm"]) [])
         = Some (yielded, sent, ["/Content/a.htm"; "/Content/b.htm"; "/index.htm"], [], [])
         ∧ sent ≡ₚ ["/Content/a.htm"; "/Content/b.htm"]).
Proof.
  split; [|split; [|split]].
  - unfold is_relative_href. split.
    + destruct href as [h|]; [|discriminate].
      destruct (Urllib.urlparse h "") as [r|] eqn:Hr; simpl; [|discriminate].
      intros [= H]. apply andb_true_iff in H as [H H3].
      apply andb_true_iff in H as [H1 H2].
      exists h, r. apply negb_true_iff in H2, H3.
      unfold Urllib.nonempty in H1. rewrite negb_involutive in H1.
      apply String.eqb_eq in H1. done.
    + intros (h & r & -> & Hr & Hn & H2 & H3). rewrite Hr; simpl.
      by rewrite Hn, H2, H3.
  - intros x h r Hx Hh Hr Hn. unfold is_relative_link, is_relative_href.
    rewrite Hx, Hh, Hr; simpl.
    destruct (Urllib.netloc r); [done|]. done.
  - intros site page st st' t u H Hu.
    apply download_and_process_page_ok_inv in H
      as (k & dp & st1 & soup & r & Hd & _ & Hf & Hp & _ & ->).
    simpl in Hu. apply elem_of_union in Hu as [Hu|Hu].
    + left. apply download_document_ok_inv in Hd as [_ [[_ ->]|(_ & _ & ->)]]; done.
    + right. exists k, st1, soup. apply elem_of_list_to_set in Hu.
      apply process_page_inv in Hp as (sheets & images & s1 & Hl & _).
      apply rmapM_ok in Hl.
      apply list_elem_of_In in Hu.
      assert (∃ x, In x (List.filter relative_link (List.filter is_tag (descendants soup)))
                ∧ (getitem x "href" ≫= λ h, resolve_url page h) = Ok u)
        as (x & Hx & Hxu).
      { clear -Hl Hu. induction Hl as [|x0 y l ys Hxy _ IH]; [done|].
        destruct Hu as [->|Hu].
        - exists x0. split; [by left | done].
        - destruct (IH Hu) as (x' & ? & ?). exists x'. split; [by right | done]. }
      apply filter_In in Hx as [Hx Hrel]. apply filter_In in Hx as [Hx _].
      apply relative_link_inv in Hrel as [Ha Hrel].
      apply rbind_ok in Hxu as (h & Hh & Hres).
      unfold getitem in Hh. destruct (get x "href") as [h'|] eqn:Hg; [|done].
      injection Hh as ->. by exists x, h.
  - intros pop [->| ->]; eexists _, _; (split; [vm_compute; reflexivity|]).
    + done.
    + apply Permutation_swap.
Qed.

Lemma link_extraction_same_origin_witness :
  is_relative_link (hyperlink "http://example.com" "elsewhere") = Ok false.
Proof.
  refine (proj1 (proj2 (link_extraction_same_origin None))
            (hyperlink "http://example.com" "elsewhere") "http://example.com"
            (Urllib.mkParse "http" "example.com" "" "" "" "") eq_refl eq_refl eq_refl _).
  discriminate.
Defined.

(** C9 as the specification words it fails for a reference that is not a
    hyperlink: the URL of an image on another site is added to the asset
    queue. *)
Lemma remote_image_queued_counterexample :
  let '(r, st) :=
    download_and_process_page remote_image_site "/Content/logo.htm" empty_queues in
  r = Ok (Some "Logo")
  ∧ Urllib.netloc <$> Urllib.urlparse "http://example.com/logo.png" ""
    = Ok "example.com"
  ∧ elements (assets st) = ["http://example.com/logo.png"].
Proof. vm_compute. done. Qed.

(** ** The crawl *)

Lemma valid_pop_first : valid_pop pop_first.
Proof.
  intros st Hne. unfold pop_first.
  destruct (elements (pages st)) as [|p l] eqn:E.
  - apply elements_empty_inv in E. by apply leibniz_equiv in E.
  - simpl. apply elem_of_elements. rewrite E. by left.
Qed.

Lemma download_document_frame (site : string → response) (path : string)
    (st st' : state) (r : result string) :
  download_document site path st = (r, st') →
  pages st' = pages st ∧ assets st' = assets st
  ∧ done_pages st' = done_pages st ∧ stderr st' = stderr st
  ∧ (requests st' = requests st ∨ requests st' = requests st ++ [path]).
Proof.
  destruct r as [k|e]; intros H.
  - apply download_document_ok_inv in H as [_ [[_ ->]|(_ & _ & ->)]]; simpl; auto 10.
  - apply download_document_raise_inv in H
      as [(_ & _ & ->)|(k & msg & _ & _ & _ & _ & ->)]; simpl; auto 10.
Qed.

Lemma download_and_process_page_frame (site : string → response) (page : string)
    (st st' : state) (r : result (option string)) :
  download_and_process_page site page st = (r, st') →
  pages st ⊆ pages st'
  ∧ done_pages st' = done_pages st ∧ stderr st' = stderr st
  ∧ (requests st' = requests st ∨ requests st' = requests st ++ [page]).
Proof.
  unfold download_and_process_page.
  destruct (download_document site page st) as [[k|e] st1] eqn:Hd.
  - apply download_document_frame in Hd as (Hp & Ha & Hdn & He & Hr).
    destruct (_ ≫= _) as [[dp r']|e]; intros [= <- <-]; simpl;
      rewrite ?Hp, ?Hdn, ?He; repeat split; auto; set_solver.
  - apply download_document_frame in Hd as (Hp & Ha & Hdn & He & Hr).
    intros [= <- <-]. rewrite Hp, Hdn, He. auto.
Qed.

Lemma crawl_turn_next (site : string → response) (pop : state → string)
    (st st' : state) (y : option (option string * string)) :
  crawl_turn site pop st = Next y st' →
  done_pages st' = done_pages st ∪ {[pop st]}
  ∧ pages st' ## done_pages st'
  ∧ (requests st' = requests st ∨ requests st' = requests st ++ [pop st])
  ∧ (∀ z, y = Some z → snd z = pop st).
Proof.
  unfold crawl_turn.
  destruct (download_and_process_page _ _ _) as [[t|e] st1] eqn:Hd;
    apply download_and_process_page_frame in Hd as (Hp & Hdn & He & Hr); simpl in *.
  - intros [= <- <-]; simpl. rewrite Hdn. repeat split; [set_solver|done|].
    by intros z [= <-].
  - destruct e; try discriminate. intros [= <- <-]; simpl. rewrite Hdn.
    repeat split; [set_solver|done|]. by intros z [=].
Qed.

Lemma reach_invariant (site : string → response) (pop : state → string)
    (st0 st : state) (popped : list string) (yielded : list (option string * string)) :
  reach site pop st0 popped yielded st →
  done_pages st = done_pages st0 ∪ list_to_set popped
  ∧ (popped = [] → st = st0)
  ∧ (popped ≠ [] → pages st ## done_pages st)
  ∧ (∀ z, z ∈ yielded → snd z ∈ popped)
  ∧ (∃ sent, requests st = requests st0 ++ sent ∧ ∀ p, p ∈ sent → p ∈ popped).
Proof.
  induction 1 as [|popped yielded st y st' _ IH Hne Hturn].
  - split; [set_solver|]. split; [done|]. split; [done|]. split; [set_solver|].
    exists []. split; [|set_solver]. by rewrite app_nil_r.
  - destruct IH as (Hdone & _ & _ & Hy & sent & Hsent & Hsub).
    apply crawl_turn_next in Hturn as (Hd' & Hdisj & Hreq & Hz).
    split; [|split; [|split; [|split]]].
    + rewrite Hd', Hdone, list_to_set_app_L. set_solver.
    + by intros [? ?]%app_eq_nil.
    + done.
    + intros z [Hz'|Hz']%elem_of_app; [set_solver|].
      destruct y as [z'|]; simpl in Hz'; [|set_solver].
      apply list_elem_of_singleton in Hz' as ->. rewrite (Hz z' eq_refl). set_solver.
    + destruct Hreq as [->| ->].
      * exists sent. split; [done|]. set_solver.
      * exists (sent ++ [pop st]). split; [by rewrite Hsent, app_assoc|]. set_solver.
Qed.

Lemma reach_nodup (site : string → response) (pop : state → string)
    (st0 st : state) (popped : list string) (yielded : list (option string * string)) :
  valid_pop pop →
  reach site pop st0 popped yielded st → NoDup popped.
Proof.
  intros Hpop. induction 1 as [|popped yielded st y st' Hreach IH Hne Hturn].
  - constructor.
  - apply NoDup_app. split; [done|]. split; [|apply NoDup_singleton].
    intros p Hp ->%list_elem_of_singleton.
    apply reach_invariant in Hreach as (Hdone & _ & Hdisj & _).
    assert (popped ≠ []) as Hne' by (intros ->; set_solver).
    specialize (Hdisj Hne'). specialize (Hpop st Hne). set_solver.
Qed.

Lemma reach_done_stays (site : string → response) (pop : state → string)
    (st0 st : state) (popped : list string) (yielded : list (option string * string))
    (p : string) :
  valid_pop pop →
  reach site pop st0 popped yielded st →
  p ∈ done_pages st0 → p ∉ pages st0 →
  (p ∉ popped) ∧ (p ∉ pages st) ∧ p ∈ done_pages st.
Proof.
  intros Hpop Hreach Hd Hp.
  induction Hreach as [|popped yielded st y st' Hreach IH Hne Hturn].
  - set_solver.
  - destruct IH as (IH1 & IH2 & IH3).
    apply crawl_turn_next in Hturn as (Hd' & Hdisj & _).
    specialize (Hpop st Hne).
    assert (p ∈ done_pages st') by set_solver.
    repeat split; [|set_solver|done].
    intros [?| ->%list_elem_of_singleton]%elem_of_app; set_solver.
Qed.

Lemma crawl_loop_halt {C} (site : string → response) (pop : state → string)
    (consume : option string * string → C → result C) (fuel : nat) (st : state) (c : C) :
  pages st = ∅ → crawl_loop site pop consume fuel st c = Finished st c.
Proof. intros H. destruct fuel; simpl; by rewrite bool_decide_eq_true_2. Qed.

Lemma crawl_loop_finished {C} (site : string → response) (pop : state → string)
    (consume : option string * string → C → result C) (fuel : nat)
    (st st' : state) (c c' : C) :
  crawl_loop site pop consume fuel st c = Finished st' c' →
  pages st' = ∅ ∧ ∃ popped yielded, reach site pop st popped yielded st'.
Proof.
  revert st c. induction fuel as [|fuel IH]; intros st c; simpl.
  - case_bool_decide as Hp; [|discriminate]. intros [= <- <-].
    split; [done|]. exists [], []. constructor.
  - case_bool_decide as Hp.
    { intros [= <- <-]. split; [done|]. exists [], []. constructor. }
    destruct (crawl_turn site pop st) as [y st1|e] eqn:Hturn; [|discriminate].
    assert (Hstep : ∀ c1, crawl_loop site pop consume fuel st1 c1 = Finished st' c' →
              pages st' = ∅ ∧ ∃ popped yielded, reach site pop st popped yielded st').
    { intros c1 H. destruct (IH _ _ H) as (Hfin & popped & yielded & Hr).
      split; [done|].
      exists ([] ++ [pop st] ++ popped), ([] ++ option_list y ++ yielded).
      clear -Hr Hp Hturn. induction Hr as [|popped yielded st2 y2 st3 _ IHr Hne2 Ht2].
      - rewrite !app_nil_r. by eapply reach_turn; [constructor|..].
      - rewrite !app_assoc. rewrite !app_assoc in IHr.
        by eapply reach_turn. }
    destruct y as [z|]; [|apply Hstep].
    destruct (consume z c) as [c1|]; [apply Hstep|discriminate].
Qed.

(** ** The crawl ends *)

Lemma docset_path_of_ok (p k : string) :
  tmp_path_of p = Ok k → ∃ dp, docset_path_of p = Ok dp.
Proof.
  unfold tmp_path_of, docset_path_of.
  destruct (Pathlib.relative_to_root p); [|done]. simpl. eauto.
Qed.

Lemma readable_docs_cached (site : string → response) (disk : gmap string node)
    (universe : gset string) (p k : string) (d : node) :
  tmp_path_of p = Ok k → disk !! k = Some d →
  In d (readable_docs site disk universe p).
Proof.
  intros Hk Hd. unfold readable_docs. rewrite Hk, Hd. by left.
Qed.

Lemma readable_docs_fetched (site : string → response) (disk : gmap string node)
    (universe : gset string) (p q k : string) :
  tmp_path_of p = Ok k → q ∈ universe → fetched_ok site q = true →
  tmp_path_of q = Ok k →
  In (content (site q)) (readable_docs site disk universe p).
Proof.
  intros Hk Hq Hf Hqk. unfold readable_docs. rewrite Hk.
  apply in_or_app. right. apply list_elem_of_In, list_elem_of_fmap.
  exists q. split; [done|]. apply list_elem_of_In, filter_In. split.
  - by apply list_elem_of_In, elem_of_elements.
  - unfold cached_at. by rewrite Hf, Hqk, String.eqb_refl.
Qed.

Lemma crawlable_page (check : string → processed → bool) (site : string → response)
    (disk : gmap string node) (universe : gset string) (p : string) :
  crawlable check site disk universe = true → p ∈ universe →
  (∃ k, tmp_path_of p = Ok k)
  ∧ ∀ d, In d (readable_docs site disk universe p) →
      ∃ r, process_page p d = Ok r ∧ list_to_set (links r) ⊆ universe
           ∧ check p r = true.
Proof.
  unfold crawlable. rewrite forallb_forall. intros H Hp.
  specialize (H p). rewrite andb_true_iff, forallb_forall in H.
  destruct H as [H1 H2]; [by apply list_elem_of_In, elem_of_elements|].
  split.
  - destruct (tmp_path_of p) as [k|]; [eauto | done].
  - intros d Hd. specialize (H2 d Hd). unfold page_ok in H2.
    destruct (process_page p d) as [r|]; [|done]. exists r.
    apply andb_true_iff in H2 as [H2 H3]. split; [done|]. split; [|done].
    rewrite forallb_forall in H2. intros u Hu%elem_of_list_to_set%list_elem_of_In.
    specialize (H2 u Hu). by apply bool_decide_eq_true in H2.
Qed.

Section Total.

Variable check : string → processed → bool.
Variable site : string → response.
Variable pop : state → string.
Variable disk : gmap string node.
Variable universe : gset string.
Hypothesis Hpop : valid_pop pop.
Hypothesis Hcrawlable : crawlable check site disk universe = true.

Lemma crawl_turn_in_universe (st : state) :
  in_universe check site disk universe st → pages st ≠ ∅ →
  ∃ y st', crawl_turn site pop st = Next y st'
           ∧ in_universe check site disk universe st'
           ∧ ∀ z, y = Some z →
               ∃ d r, In d (readable_docs site disk universe (pop st))
                      ∧ process_page (pop st) d = Ok r
                      ∧ check (pop st) r = true
                      ∧ z = (title r, pop st).
Proof.
  intros (Hsub & Hcache & Hassets) Hne.
  pose proof (Hpop st Hne) as Hin.
  assert (Hu : pop st ∈ universe) by set_solver.
  destruct (crawlable_page _ _ _ _ _ Hcrawlable Hu) as [[k Hk] Hdocs].
  destruct (docset_path_of_ok _ _ Hk) as [dp Hdp].
  unfold crawl_turn, download_and_process_page.
  destruct (download_document site (pop st) _) as [[k'|e] st1] eqn:Hd.
  - apply download_document_ok_inv in Hd as [Hk' Hd]. rewrite Hk in Hk'.
    injection Hk' as <-. rewrite Hdp. simpl.
    assert (∃ d, files st1 !! k = Some d ∧ In d (readable_docs site disk universe (pop st))
                 ∧ pages st1 ⊆ universe ∧ assets st1 = assets st
                 ∧ ∀ k0 d0, files st1 !! k0 = Some d0 →
                     disk !! k0 = Some d0
                     ∨ ∃ q, q ∈ universe ∧ fetched_ok site q = true
                            ∧ tmp_path_of q = Ok k0 ∧ d0 = content (site q))
      as (d & Hfd & Hread & Hsub1 & Hassets1 & Hcache1).
    { destruct Hd as [[[d Hfd] ->]|(Hnone & Hst & ->)]; simpl in *.
      - exists d. split; [done|]. split; [|split; [set_solver|done]].
        destruct (Hcache _ _ Hfd) as [?|(q & ? & ? & ? & ->)].
        + by eapply readable_docs_cached.
        + by eapply readable_docs_fetched.
      - exists (content (site (pop st))). rewrite lookup_insert_eq.
        assert (fetched_ok site (pop st) = true) as Hok
          by (unfold fetched_ok; by rewrite Hst).
        split; [done|]. split; [by eapply readable_docs_fetched|].
        split; [set_solver|]. split; [done|].
        intros k0 d0. rewrite lookup_insert. case_decide as Ek.
        + intros [= <-]. subst k0. right. by exists (pop st).
        + apply Hcache. }
    destruct (Hdocs d Hread) as (r & Hr & Hlinks & Hcheck).
    unfold read_file. rewrite Hfd. simpl. rewrite Hr. simpl.
    eexists _, _. split; [done|]. split.
    + split; simpl; [set_solver|]. split; [done|].
      rewrite Hassets1. intros a [Ha|Ha]%elem_of_union; [by apply Hassets|].
      apply elem_of_list_to_set, list_elem_of_In in Ha. by exists (pop st), d, r.
    + intros z [= <-]. by exists d, r.
  - apply download_document_raise_inv in Hd
      as [(_ & Hk' & _)|(k' & msg & _ & _ & -> & _ & ->)]; [congruence|].
    eexists _, _. split; [done|]. split; [|done].
    split; simpl; [set_solver|done].
Qed.

Section Consumer.

Context {C : Type}.
Variable consume : option string * string → C → result C.
Hypothesis Hconsume :
  ∀ p d r c, p ∈ universe → In d (readable_docs site disk universe p) →
             process_page p d = Ok r → check p r = true →
             is_ok (consume (title r, p) c) = true.

Lemma crawl_loop_total_disjoint (fuel : nat) (st : state) (c : C) :
  in_universe check site disk universe st →
  pages st ## done_pages st →
  (size (universe ∖ done_pages st) ≤ fuel)%nat →
  ∃ st' c', crawl_loop site pop consume fuel st c = Finished st' c'
            ∧ in_universe check site disk universe st'.
Proof.
  revert st c. induction fuel as [|fuel IH]; intros st c Hst Hdisj Hsize.
  - exists st, c. simpl. case_bool_decide as Hp; [done|].
    pose proof (Hpop st Hp) as Hin. destruct Hst as [Hsub _].
    assert (pop st ∈ universe ∖ done_pages st) as Hel by set_solver.
    assert (size (universe ∖ done_pages st) ≠ 0)%nat; [|lia].
    apply size_non_empty_iff. set_solver.
  - simpl. case_bool_decide as Hp; [by exists st, c|].
    destruct (crawl_turn_in_universe st Hst Hp) as (y & st' & Hturn & Hst' & Hy).
    rewrite Hturn.
    pose proof (crawl_turn_next _ _ _ _ _ Hturn) as (Hdone & Hdisj' & _).
    pose proof (Hpop st Hp) as Hin. destruct Hst as [Hsub _].
    assert (size (universe ∖ done_pages st') < size (universe ∖ done_pages st))%nat.
    { apply subset_size. rewrite Hdone. set_solver. }
    destruct y as [z|].
    + destruct (Hy z eq_refl) as (d & r & Hd & Hr & Hc & ->).
      assert (pop st ∈ universe) as Hu by set_solver.
      pose proof (Hconsume _ _ _ c Hu Hd Hr Hc) as Hz.
      destruct (consume _ c) as [c1|]; [|done].
      apply IH; [done..|lia].
    + apply IH; [done..|lia].
Qed.

Lemma crawl_loop_total (fuel : nat) (st : state) (c : C) :
  in_universe check site disk universe st →
  (size universe < fuel)%nat →
  ∃ st' c', crawl_loop site pop consume fuel st c = Finished st' c'
            ∧ in_universe check site disk universe st'.
Proof.
  intros Hst Hfuel. destruct fuel as [|fuel]; [lia|].
  simpl. case_bool_decide as Hp; [by exists st, c|].
  destruct (crawl_turn_in_universe st Hst Hp) as (y & st' & Hturn & Hst' & Hy).
  rewrite Hturn.
  pose proof (crawl_turn_next _ _ _ _ _ Hturn) as (Hdone & Hdisj' & _).
  assert (size (universe ∖ done_pages st') ≤ fuel)%nat.
  { etrans; [apply subseteq_size|]; [|apply Nat.lt_succ_r, Hfuel]. set_solver. }
  destruct y as [z|].
  - destruct (Hy z eq_refl) as (d & r & Hd & Hr & Hc & ->).
    assert (pop st ∈ universe) as Hu.
    { destruct Hst as [Hsub _]. pose proof (Hpop st Hp). set_solver. }
    pose proof (Hconsume _ _ _ c Hu Hd Hr Hc) as Hz.
    destruct (consume _ c) as [c1|]; [|done].
    by apply crawl_loop_total_disjoint.
  - by apply crawl_loop_total_disjoint.
Qed.

End Consumer.

End Total.

Lemma download_assets_total (site : string → response) (l : list string) (st : state) :
  Forall (λ a, asset_ok site a = true) l →
  ∃ st', download_assets site l st = (Ok (), st')
         ∧ pages st' = pages st ∧ stderr st' = stderr st.
Proof.
  revert st. induction l as [|a l IH]; intros st Hl; [by exists st|].
  apply Forall_cons in Hl as [Ha Hl]. unfold asset_ok in Ha.
  apply andb_true_iff in Ha as [Hk Hf].
  destruct (tmp_path_of a) as [k|] eqn:Ek; [|done].
  cbn [download_assets].
  assert (∃ st1 d, download_document site a st = (Ok k, st1) ∧ files st1 !! k = Some d
                   ∧ pages st1 = pages st ∧ stderr st1 = stderr st)
    as (st1 & d & Hd & Hfd & Hp1 & He1).
  { unfold download_document. rewrite Ek.
    destruct (files st !! k) as [d|] eqn:Efile; [by exists st, d|].
    unfold fetched_ok in Hf.
    destruct (raise_for_status _ _) as [[]|]; [|done].
    eexists _, _. split; [done|]. simpl. by rewrite lookup_insert_eq. }
  rewrite Hd. unfold tmp_path_of in Ek.
  destruct (Pathlib.relative_to_root a) as [rel|]; [|done]. simpl.
  unfold read_file. rewrite Hfd. simpl.
  destruct (IH (set_docset (insert (Pathlib.to_string (DOCUMENTS_DIR ++ rel)) d) st1) Hl)
    as (st' & Hst' & Hp' & He').
  exists st'. split; [done|]. simpl in *. by rewrite Hp', He'.
Qed.

Lemma index_all_total (l : list (option string * string)) (table : list row) :
  Forall (λ y, is_ok (entry_type_of (index_path (snd y)) (fst y)) = true) l →
  ∃ table', index_all l table = Ok table'.
Proof.
  revert table. induction l as [|y l IH]; intros table Hl; [by exists table|].
  apply Forall_cons in Hl as [Hy Hl]. simpl. unfold index_pair.
  destruct (entry_type_of _ _) as [ty|]; [|done]. simpl. apply IH, Hl.
Qed.

Lemma main_total (site : string → response) (pop : state → string)
    (toc : gset string) (ride_help : list (string * string))
    (disk : gmap string node) (universe : gset string) (fuel : nat) :
  valid_pop pop →
  crawlable (run_check site) site disk universe = true →
  ride_help_ok ride_help = true →
  toc ∪ list_to_set (snd <$> ride_help) ⊆ universe →
  (size universe < fuel)%nat →
  ∃ st table, main site pop fuel toc ride_help disk = Finished st table
              ∧ pages st = ∅.
Proof.
  intros Hpop Hc Hride Hseeds Hfuel. unfold main, crawl_pages.
  destruct (crawl_loop_total (run_check site) site pop disk universe Hpop Hc index_pair)
    with (fuel := fuel)
         (st := crawl_start (mkState (toc ∪ list_to_set (snd <$> ride_help)) ∅ ∅ disk ∅ [] []))
         (c := @nil row)
    as (st & table & Hloop & Hst); [| |done|].
  - intros p d r c _ _ _ Hcheck. unfold index_pair. simpl.
    unfold run_check in Hcheck. apply andb_true_iff in Hcheck as [_ Hi].
    by destruct (entry_type_of _ _).
  - split; [done|]. split; [by left|]. simpl. set_solver.
  - rewrite Hloop.
    destruct (index_all_total ((λ kv, (Some (fst kv), snd kv)) <$> ride_help) table)
      as [table' Ht].
    { unfold ride_help_ok in Hride. rewrite forallb_forall in Hride.
      apply Forall_forall. intros y (kv & -> & Hkv)%list_elem_of_fmap. simpl.
      apply Hride. by apply list_elem_of_In. }
    rewrite Ht.
    destruct (download_assets_total site (elements (assets st)) st) as (st' & Hst' & Hp & _).
    { apply Forall_forall. intros a Ha%elem_of_elements.
      destruct Hst as (_ & _ & Hassets).
      destruct (Hassets a Ha) as (p & d & r & _ & _ & _ & Hcheck & Hin).
      unfold run_check in Hcheck. apply andb_true_iff in Hcheck as [Hall _].
      rewrite forallb_forall in Hall. by apply Hall. }
    rewrite Hst'. exists st', table'. split; [done|].
    rewrite Hp. by apply crawl_loop_finished in Hloop as [? _].
Qed.

(** C3.  At every test of the loop of [crawl_pages] after a page has been
    popped, no page of the done set is pending: a page that is done stays
    done and is not pending at any later test, whichever page [pop] takes.
    So the pages popped in a run, which are those fetched and processed,
    are all different.  The loop ends at a test exactly when no page is
    pending, and a run that ends leaves no page pending.  On a site whose
    pages link into a finite set of pages that can all be processed the
    run does end, after at most one turn for every page of that set and
    one more. *)
Theorem crawl_frontier_invariant (site : string → response) (pop : state → string)
    (st0 st : state) (popped : list string) (yielded : list (option string * string)) :
  valid_pop pop →
  reach site pop st0 popped yielded st →
  (∀ p, p ∈ done_pages st0 → p ∈ done_pages st ∧ (popped ≠ [] → p ∉ pages st))
  ∧ (∀ p, p ∈ popped → p ∈ done_pages st ∧ (p ∉ pages st))
  ∧ NoDup popped
  ∧ ∀ C (consume : option string * string → C → result C) fuel c,
      (pages st = ∅ ↔ crawl_loop site pop consume fuel st c = Finished st c)
      ∧ (∀ st' c', crawl_loop site pop consume fuel st c = Finished st' c' →
                   pages st' = ∅)
      ∧ ∀ check disk universe,
          crawlable check site disk universe = true →
          in_universe check site disk universe st →
          (∀ y c0, is_ok (consume y c0) = true) →
          (size universe < fuel)%nat →
          ∃ st' c', crawl_loop site pop consume fuel st c = Finished st' c'
                    ∧ pages st' = ∅.
Proof.
  intros Hpop Hreach.
  pose proof (reach_invariant _ _ _ _ _ _ Hreach) as (Hdone & _ & Hdisj & _).
  split; [|split; [|split]].
  - intros p Hp. split; [set_solver|]. intros Hne. specialize (Hdisj Hne). set_solver.
  - intros p Hp. assert (popped ≠ []) as Hne by (intros ->; set_solver).
    specialize (Hdisj Hne). set_solver.
  - by eapply reach_nodup.
  - intros C consume fuel c. split; [split|split].
    + apply crawl_loop_halt.
    + intros H. by apply crawl_loop_finished in H as [? _].
    + intros st' c' H. by apply crawl_loop_finished in H as [? _].
    + intros check disk universe Hc Hst Hcons Hfuel.
      destruct (crawl_loop_total check site pop disk universe Hpop Hc consume)
        with (fuel := fuel) (st := st) (c := c) as (st' & c' & Hloop & _);
        [by intros; apply Hcons|done..|].
      exists st', c'. split; [done|]. by apply crawl_loop_finished in Hloop as [? _].
Qed.

Lemma two_page_first_turn :
  pages two_page_start ≠ ∅
  ∧ pop_first two_page_start = "/Content/a.htm"
  ∧ crawl_turn two_page_site pop_first two_page_start
    = Next (Some (Some "A", "/Content/a.htm")) two_page_second.
Proof.
  split; [|split].
  - apply (bool_decide_unpack _). vm_compute. exact I.
  - vm_compute. reflexivity.
  - vm_compute. reflexivity.
Qed.

Lemma two_page_second_reached :
  reach two_page_site pop_first two_page_start
    ["/Content/a.htm"] [(Some "A", "/Content/a.htm")] two_page_second.
Proof.
  destruct two_page_first_turn as (Hne & Hpop & Hturn).
  pose proof (reach_turn two_page_site pop_first two_page_start [] [] two_page_start
                (Some (Some "A", "/Content/a.htm")) two_page_second
                (reach_start _ _ _) Hne Hturn) as H.
  rewrite Hpop in H. exact H.
Qed.

Lemma crawl_frontier_invariant_witness :
  "/Content/a.htm" ∈ done_pages two_page_second
  ∧ ("/Content/a.htm" ∉ pages two_page_second)
  ∧ NoDup ["/Content/a.htm"].
Proof.
  destruct (crawl_frontier_invariant two_page_site pop_first two_page_start
              two_page_second ["/Content/a.htm"] [(Some "A", "/Content/a.htm")]
              valid_pop_first two_page_second_reached) as (_ & H & Hnd & _).
  destruct (H "/Content/a.htm" (list_elem_of_here _ _)) as [H1 H2].
  exact (conj H1 (conj H2 Hnd)).
Defined.

(** C10.  [crawl_pages] starts with [/index.htm] in the done set.  In a
    crawl whose seed pages do not include it, [/index.htm] is never
    pending at a test of the loop, so it is never popped, never requested
    and never yielded to the index builder, whatever links the crawled
    pages have. *)
Theorem index_htm_never_crawled (site : string → response) (pop : state → string)
    (queues st : state) (popped : list string) (yielded : list (option string * string)) :
  valid_pop pop →
  "/index.htm" ∉ pages queues →
  reach site pop (crawl_start queues) popped yielded st →
  "/index.htm" ∈ done_pages (crawl_start queues)
  ∧ "/index.htm" ∈ done_pages st
  ∧ ("/index.htm" ∉ pages st)
  ∧ ("/index.htm" ∉ popped)
  ∧ (pages st ≠ ∅ → pop st ≠ "/index.htm")
  ∧ (∀ t, (t, "/index.htm") ∉ yielded)
  ∧ ∃ sent, requests st = requests queues ++ sent ∧ ("/index.htm" ∉ sent).
Proof.
  intros Hpop Hseed Hreach.
  assert (Hd0 : "/index.htm" ∈ done_pages (crawl_start queues)) by (simpl; set_solver).
  destruct (reach_done_stays _ _ _ _ _ _ "/index.htm" Hpop Hreach Hd0 Hseed)
    as (Hnp & Hnq & Hd).
  pose proof (reach_invariant _ _ _ _ _ _ Hreach) as (_ & _ & _ & Hy & sent & Hsent & Hsub).
  do 4 (split; [done|]). split; [|split].
  - intros Hne E. specialize (Hpop st Hne). rewrite E in Hpop. done.
  - intros t Ht. apply Hy in Ht. done.
  - exists sent. split; [done|]. intros H. by apply Hsub in H.
Qed.

Lemma gone_link_first_turn :
  pages gone_link_start ≠ ∅
  ∧ pop_first gone_link_start = "/Content/UserGuide/a.htm"
  ∧ crawl_turn gone_link_site pop_first gone_link_start
    = Next (Some (Some "A", "/Content/UserGuide/a.htm")) gone_link_second.
Proof.
  split; [|split].
  - apply (bool_decide_unpack _). vm_compute. exact I.
  - vm_compute. reflexivity.
  - vm_compute. reflexivity.
Qed.

Lemma gone_link_second_reached :
  reach gone_link_site pop_first gone_link_start
    ["/Content/UserGuide/a.htm"] [(Some "A", "/Content/UserGuide/a.htm")]
    gone_link_second.
Proof.
  destruct gone_link_first_turn as (Hne & Hpop & Hturn).
  pose proof (reach_turn gone_link_site pop_first gone_link_start [] [] gone_link_start
                (Some (Some "A", "/Content/UserGuide/a.htm")) gone_link_second
                (reach_start _ _ _) Hne Hturn) as H.
  rewrite Hpop in H. exact H.
Qed.

Lemma gone_link_facts :
  In (hyperlink "/index.htm" "top")
     (descendants (content (gone_link_site "/Content/UserGuide/a.htm")))
  ∧ ("/index.htm" ∉ pages (seeds ["/Content/UserGuide/a.htm"]))
  ∧ pages gone_link_second ≠ ∅.
Proof.
  split; [|split].
  - vm_compute. repeat (first [left; reflexivity | right]).
  - apply (bool_decide_unpack _). vm_compute. exact I.
  - apply (bool_decide_unpack _). vm_compute. exact I.
Qed.

Lemma index_htm_never_crawled_witness :
  In (hyperlink "/index.htm" "top")
     (descendants (content (gone_link_site "/Content/UserGuide/a.htm")))
  ∧ ("/index.htm" ∉ pages gone_link_second)
  ∧ pop_first gone_link_second ≠ "/index.htm".
Proof.
  destruct gone_link_facts as (Hlink & Hseed & Hne).
  destruct (index_htm_never_crawled gone_link_site pop_first
              (seeds ["/Content/UserGuide/a.htm"]) gone_link_second
              ["/Content/UserGuide/a.htm"] [(Some "A", "/Content/UserGuide/a.htm")]
              valid_pop_first Hseed gone_link_second_reached)
    as (_ & _ & H1 & _ & H2 & _).
  exact (conj Hlink (conj H1 (H2 Hne))).
Defined.

Lemma raise_for_status_fails (url : string) (r : response) :
  400 ≤ status r < 600 →
  ∃ msg, raise_for_status url r = Raise (HTTPError msg).
Proof.
  intros [H1 H2]. unfold raise_for_status.
  destruct (Nat.leb 400 (status r) && Nat.ltb (status r) 500) eqn:E1; [eauto|].
  destruct (Nat.leb 500 (status r) && Nat.ltb (status r) 600) eqn:E2; [eauto|].
  exfalso. apply andb_false_iff in E1, E2.
  rewrite Nat.leb_gt, Nat.ltb_ge in E1, E2. lia.
Qed.

Lemma crawl_loop_turn {C} (site : string → response) (pop : state → string)
    (consume : option string * string → C → result C) (fuel : nat)
    (st st' : state) (c : C) :
  pages st ≠ ∅ →
  crawl_turn site pop st = Next None st' →
  crawl_loop site pop consume (S fuel) st c = crawl_loop site pop consume fuel st' c.
Proof.
  intros Hne Hturn. simpl. by rewrite bool_decide_eq_false_2, Hturn.
Qed.

(** C6.  When the page that is popped is not in the cache and the site
    answers with a status from 400 to 599, the turn of the loop raises
    nothing: it sends the one request, writes one line [Download failed:
    ...] to the error stream, yields nothing, adds the page to the done
    set, and leaves the other pending pages, the assets and the files as
    they were.  The loop goes on with what is pending; the page is never
    popped again, so no further request is sent for it.  The failure does
    not change how the run ends: the crawl of [gone_link_site], one of
    whose links is answered with 404, ends well with that one line in the
    error stream, whichever of [pop_first] and [pop_last] pops; and on
    every site whose pages link into a finite set of pages that can be
    processed and classified, with assets that the site serves, [main]
    ends well whatever statuses the site answers the pages with. *)
Theorem failed_fetch_is_skipped (site : string → response) (pop : state → string)
    (st : state) (tmp_path : string) :
  tmp_path_of (pop st) = Ok tmp_path →
  files st !! tmp_path = None →
  400 ≤ status (site (pop st)) < 600 →
  ∃ msg st',
    raise_for_status (BASE_URL +:+ pop st) (site (pop st)) = Raise (HTTPError msg)
    ∧ crawl_turn site pop st = Next None st'
    ∧ st' = mkState ((pages st ∖ {[pop st]}) ∖ (done_pages st ∪ {[pop st]}))
              (assets st)
              (done_pages st ∪ {[pop st]})
              (files st)
              (docset st)
              (requests st ++ [pop st])
              (stderr st ++ ["Download failed: " +:+ msg])
    ∧ (∀ C (consume : option string * string → C → result C) fuel c,
         pages st ≠ ∅ →
         crawl_loop site pop consume (S fuel) st c
         = crawl_loop site pop consume fuel st' c)
    ∧ (∀ popped yielded st'',
         valid_pop pop →
         reach site pop st' popped yielded st'' →
         (pop st ∉ popped) ∧ (pop st ∉ pages st'') ∧ pop st ∈ done_pages st''
         ∧ ∃ sent, requests st'' = requests st' ++ sent ∧ (pop st ∉ sent))
    ∧ (∀ pop', pop' = pop_first ∨ pop' = pop_last →
         summary (main gone_link_site pop' 5 {["/Content/UserGuide/a.htm"]} [] ∅)
         = Some ([(Some "A", "Guide", "/Content/UserGuide/a.html")],
                 ["/Content/UserGuide/a.htm"; "/Content/UserGuide/gone.htm"],
                 ["/Content/UserGuide/gone.htm"; "/Content/UserGuide/a.htm";
                  "/index.htm"],
                 [],
                 ["Download failed: 404 Client Error: Not Found for url: https://help.dyalog.com/latest/Content/UserGuide/gone.htm"]))
    ∧ (∀ toc ride_help disk universe fuel,
         valid_pop pop →
         crawlable (run_check site) site disk universe = true →
         ride_help_ok ride_help = true →
         toc ∪ list_to_set (snd <$> ride_help) ⊆ universe →
         (size universe < fuel)%nat →
         ∃ st'' table, main site pop fuel toc ride_help disk = Finished st'' table
                       ∧ pages st'' = ∅).
Proof.
  intros Hk Hf Hs.
  destruct (raise_for_status_fails (BASE_URL +:+ pop st) _ Hs) as [msg Hmsg].
  assert (Hturn : crawl_turn site pop st
            = Next None
                (mkState ((pages st ∖ {[pop st]}) ∖ (done_pages st ∪ {[pop st]}))
                   (assets st) (done_pages st ∪ {[pop st]}) (files st) (docset st)
                   (requests st ++ [pop st])
                   (stderr st ++ ["Download failed: " +:+ msg]))).
  { unfold crawl_turn, download_and_process_page, download_document.
    rewrite Hk. simpl. rewrite Hf, Hmsg. reflexivity. }
  eexists msg, _. split; [done|]. split; [exact Hturn|]. split; [done|].
  split; [|split; [|split]].
  - intros C consume fuel c Hne. by apply crawl_loop_turn.
  - intros popped yielded st'' Hpop Hreach.
    destruct (reach_done_stays _ _ _ _ _ _ (pop st) Hpop Hreach) as (H1 & H2 & H3);
      [simpl; set_solver..|].
    pose proof (reach_invariant _ _ _ _ _ _ Hreach) as (_ & _ & _ & _ & sent & Hsent & Hsub).
    do 3 (split; [done|]). exists sent. split; [done|]. intros H. by apply Hsub in H.
  - intros pop' [->| ->]; vm_compute; reflexivity.
  - intros toc ride_help disk universe fuel. apply main_total.
Qed.

Lemma gone_link_second_turn :
  tmp_path_of (pop_first gone_link_second) = Ok "tmp/Content/UserGuide/gone.htm"
  ∧ files gone_link_second !! "tmp/Content/UserGuide/gone.htm" = None
  ∧ status (gone_link_site (pop_first gone_link_second)) = 404
  ∧ stderr gone_link_second = [].
Proof. repeat split; vm_compute; reflexivity. Qed.

Lemma gone_link_site_crawlable :
  crawlable (run_check gone_link_site) gone_link_site ∅
    {["/Content/UserGuide/a.htm"; "/Content/UserGuide/gone.htm"; "/index.htm"]} = true
  ∧ ({["/Content/UserGuide/a.htm"]}
     ∪ list_to_set (snd <$> ([] : list (string * string)))
     ⊆ ({["/Content/UserGuide/a.htm"; "/Content/UserGuide/gone.htm"; "/index.htm"]}
        : gset string))
  ∧ (size ({["/Content/UserGuide/a.htm"; "/Content/UserGuide/gone.htm"; "/index.htm"]}
           : gset string) < 4)%nat.
Proof.
  split; [vm_compute; reflexivity|]. split; [set_solver|].
  apply Nat.ltb_lt. vm_compute. reflexivity.
Qed.

Lemma failed_fetch_is_skipped_witness :
  (∃ msg st',
     crawl_turn gone_link_site pop_first gone_link_second = Next None st'
     ∧ stderr st' = stderr gone_link_second ++ ["Download failed: " +:+ msg])
  ∧ ∃ st table,
      main gone_link_site pop_first 4 {["/Content/UserGuide/a.htm"]} [] ∅
      = Finished st table.
Proof.
  destruct gone_link_second_turn as (Hk & Hf & Hs & _).
  destruct gone_link_site_crawlable as (Hc & Hsub & Hsize).
  destruct (failed_fetch_is_skipped gone_link_site pop_first gone_link_second
              "tmp/Content/UserGuide/gone.htm" Hk Hf)
    as (msg & st' & _ & Hturn & -> & _ & _ & _ & Hmain).
  - rewrite Hs. lia.
  - split.
    + exists msg. eexists. split; [exact Hturn|]. reflexivity.
    + destruct (Hmain {["/Content/UserGuide/a.htm"]} [] ∅ _ 4 valid_pop_first Hc eq_refl
                  Hsub Hsize) as (st & table & Hrun & _).
      by exists st, table.
Defined.

(** ** The parse tree *)

Lemma node_ind' (P : node → Prop) :
  (∀ s, P (NavigableString s)) →
  (∀ s, P (Comment s)) →
  (∀ nm a cs, Forall P cs → P (Tag nm a cs)) →
  ∀ n, P n.
Proof.
  intros Hs Hc Ht. fix IH 1. intros [s|s|nm a cs]; [apply Hs | apply Hc |].
  apply Ht. induction cs as [|c cs IHcs]; constructor; [apply IH | exact IHcs].
Qed.

Lemma descendants_tag (nm : string) (a : list (string * string)) (cs : list node) :
  descendants (Tag nm a cs) = descendants_list cs.
Proof. simpl. induction cs as [|c cs IH]; [done|]. simpl. by rewrite IH. Qed.

Lemma descendants_list_app (l1 l2 : list node) :
  descendants_list (l1 ++ l2) = descendants_list l1 ++ descendants_list l2.
Proof.
  induction l1 as [|c l1 IH]; [done|]. simpl. by rewrite IH, <- app_assoc.
Qed.

Lemma insert_anchors_tag (prev : option string) (nm : string)
    (a : list (string * string)) (cs : list node) :
  insert_anchors prev (Tag nm a cs)
  = (Tag nm a (fst (insert_anchors_list prev cs)), snd (insert_anchors_list prev cs)).
Proof.
  revert prev. induction cs as [|c cs IH]; intros prev; [reflexivity|].
  cbn [insert_anchors insert_anchors_list].
  destruct (insert_anchors _ c) as [c' prev1].
  specialize (IH prev1). cbn [insert_anchors] in IH.
  destruct (insert_anchors_list prev1 cs) as [r prev2].
  match type of IH with
  | (let '(_, _) := ?t in _) = _ => destruct t as [r' prev2']
  end.
  injection IH as -> ->. reflexivity.
Qed.

Lemma insert_anchors_head (prev : option string) (n : node) :
  is_tag (fst (insert_anchors prev n)) = is_tag n
  ∧ name_of (fst (insert_anchors prev n)) = name_of n
  ∧ attrs_of (fst (insert_anchors prev n)) = attrs_of n.
Proof.
  destruct n as [s|s|nm a cs]; [done..|]. rewrite insert_anchors_tag. done.
Qed.

(** ** The anchors of the sanitizer *)

Lemma anchors_after_app (prev : option string) (l1 l2 : list node) :
  anchors_after prev (l1 ++ l2)
  = anchors_after prev l1 ++ anchors_after (key_after prev l1) l2.
Proof.
  revert prev. induction l1 as [|d l1 IH]; intros prev; [done|].
  simpl. rewrite IH. by rewrite <- !app_assoc.
Qed.

Lemma key_after_app (prev : option string) (l1 l2 : list node) :
  key_after prev (l1 ++ l2) = key_after (key_after prev l1) l2.
Proof. revert prev. induction l1 as [|d l1 IH]; intros prev; [done|]. simpl. by rewrite IH. Qed.

Lemma filter_anchor_head (prev : option string) (c : node) :
  (is_tag (fst (insert_anchors prev c)) && is_dash_anchor (fst (insert_anchors prev c)))
  = (is_tag c && is_dash_anchor c)
  ∧ tag_head (fst (insert_anchors prev c)) = tag_head c.
Proof.
  destruct (insert_anchors_head prev c) as (H1 & H2 & H3).
  unfold is_dash_anchor, named, get_list, Bs4.get, tag_head. by rewrite H1, H2, H3.
Qed.

Lemma insert_anchors_anchors (n : node) :
  ∀ prev,
    tag_head <$> List.filter (λ d, is_tag d && is_dash_anchor d)
                   (descendants (fst (insert_anchors prev n)))
    = anchors_after prev (descendants n)
    ∧ snd (insert_anchors prev n) = key_after prev (descendants n).
Proof.
  induction n as [s|s|nm a cs IH] using node_ind'; [done..|].
  intros prev. rewrite insert_anchors_tag. cbn [fst snd].
  rewrite !descendants_tag.
  revert prev. induction IH as [|c cs Hc _ IHcs]; intros prev; [done|].
  cbn [insert_anchors_list].
  destruct (Hc (if is_tag c && is_section_heading c then Some (heading_key c) else prev))
    as [Hc1 Hc2].
  destruct (insert_anchors _ c) as [c' prev1] eqn:Ec.
  destruct (IHcs prev1) as [Hl1 Hl2].
  destruct (insert_anchors_list prev1 cs) as [r prev2].
  cbn [fst snd] in *.
  destruct (filter_anchor_head
              (if is_tag c && is_section_heading c then Some (heading_key c) else prev) c)
    as [Hd Hh].
  rewrite Ec in Hd, Hh. cbn [fst] in Hd, Hh.
  rewrite descendants_list_app. cbn [descendants_list key_after anchors_after].
  rewrite key_after_app, anchors_after_app, <- Hc1, <- Hc2, <- Hl1, Hl2.
  split; [|done].
  rewrite List.filter_app, fmap_app. cbn [List.filter]. rewrite Hd.
  f_equal.
  - by destruct (is_tag c && is_section_heading c && _).
  - destruct (is_tag c && is_dash_anchor c);
      rewrite ?fmap_cons, List.filter_app, fmap_app, ?Hh; done.
Qed.

Lemma anchors_after_length (prev : option string) (l : list node) :
  List.length (anchors_after prev l)
  = List.length (List.filter (λ d, is_tag d && is_dash_anchor d) l)
    + List.length (group_firsts prev
                     (List.filter (λ d, is_tag d && is_section_heading d) l)).
Proof.
  revert prev. induction l as [|d l IH]; intros prev; [done|].
  cbn [anchors_after List.filter].
  rewrite !length_app, IH.
  destruct (is_tag d && is_section_heading d); cbn [group_firsts andb negb].
  - rewrite length_app.
    destruct (decide (prev = Some (heading_key d))) as [E|E].
    + rewrite bool_decide_eq_true_2 by done.
      destruct (is_tag d && is_dash_anchor d); simpl; lia.
    + rewrite bool_decide_eq_false_2 by done.
      destruct (is_tag d && is_dash_anchor d); simpl; lia.
  - destruct (is_tag d && is_dash_anchor d); simpl; lia.
Qed.

Lemma anchors_after_fresh (prev : option string) (l : list node) :
  List.filter (λ d, is_tag d && is_dash_anchor d) l = [] →
  anchors_after prev l
  = (λ x, tag_head (dash_anchor x))
    <$> group_firsts prev (List.filter (λ d, is_tag d && is_section_heading d) l).
Proof.
  revert prev. induction l as [|d l IH]; intros prev; [done|].
  cbn [anchors_after List.filter].
  destruct (is_tag d && is_dash_anchor d); [discriminate|]. intros H.
  rewrite (IH _ H).
  destruct (is_tag d && is_section_heading d); cbn [group_firsts andb negb app]; [|done].
  rewrite fmap_app.
  destruct (decide (prev = Some (heading_key d))) as [E|E].
  - by rewrite bool_decide_eq_true_2.
  - by rewrite bool_decide_eq_false_2.
Qed.

Lemma count_runs_cons (k k' : string) (keys : list string) :
  count_runs (k :: k' :: keys)
  = (if String.eqb k k' then 0 else 1) + count_runs (k' :: keys).
Proof. done. Qed.

Lemma group_firsts_runs (k : string) (l : list node) :
  S (List.length (group_firsts (Some k) l)) = count_runs (k :: (heading_key <$> l)).
Proof.
  revert k. induction l as [|x l IH]; intros k; [done|].
  rewrite fmap_cons, count_runs_cons, <- IH.
  cbn [group_firsts]. rewrite length_app.
  destruct (decide (Some k = Some (heading_key x))) as [E|E].
  - injection E as ->. rewrite String.eqb_refl. simpl. lia.
  - destruct (String.eqb_spec k (heading_key x)) as [->|]; [done|]. simpl. lia.
Qed.

Lemma sections_runs (l : list node) :
  List.length (group_firsts None l) = count_runs (heading_key <$> l).
Proof.
  destruct l as [|x l]; [done|].
  cbn [group_firsts fmap list_fmap]. rewrite <- group_firsts_runs.
  by destruct (decide _).
Qed.

Lemma group_firsts_length (prev : option string) (l : list node) :
  (List.length (group_firsts prev l) ≤ List.length l)%nat.
Proof.
  revert prev. induction l as [|x l IH]; intros prev; [done|].
  cbn [group_firsts]. rewrite length_app. specialize (IH (Some (heading_key x))).
  destruct (decide _); simpl; lia.
Qed.

Lemma sanitize_html_before_anchors (soup : node) :
  sanitize_html soup = add_anchors <$> before_anchors soup.
Proof.
  unfold sanitize_html, before_anchors.
  destruct (del_body_onload _) as [s1|]; [|done]. simpl.
  by destruct (patch_links _).
Qed.

(** C7, as the code has it.  The sections are the first headings of the
    maximal runs of consecutive qualifying headings with the same cleaned
    text, one for every run.  When the page has at least two such runs,
    one anchor is put in for every run, named after its first heading;
    when it has fewer than two runs, and so whenever it has fewer than two
    qualifying headings, the page is left as it is.  The page in question
    is the document after lines 195-205 of [sanitize_html]. *)
Theorem anchors_one_per_run (soup : node) :
  let headings := find_all is_section_heading soup in
  let runs := count_runs (heading_key <$> headings) in
  List.length (sections soup) = runs
  ∧ List.length (find_all is_dash_anchor (add_anchors soup))
    = List.length (find_all is_dash_anchor soup) + (if Nat.leb 2 runs then runs else 0)
  ∧ (find_all is_dash_anchor soup = [] →
     tag_head <$> find_all is_dash_anchor (add_anchors soup)
     = if Nat.leb 2 runs
       then (λ x, tag_head (dash_anchor x)) <$> sections soup
       else [])
  ∧ ((List.length headings < 2)%nat → add_anchors soup = soup)
  ∧ ((runs < 2)%nat → add_anchors soup = soup)
  ∧ ∀ page out, sanitize_html page = Ok out →
      ∃ cleaned, before_anchors page = Ok cleaned ∧ out = add_anchors cleaned.
Proof.
  intros headings runs.
  assert (Hruns : List.length (sections soup) = runs) by apply sections_runs.
  split; [done|].
  unfold add_anchors. rewrite Hruns.
  split; [|split; [|split; [|split]]].
  - destruct (Nat.leb 2 runs); [|lia].
    destruct (insert_anchors_anchors soup None) as [H _].
    apply (f_equal List.length) in H. rewrite length_fmap, anchors_after_length in H.
    unfold find_all. rewrite H. fold (find_all is_section_heading soup).
    fold (sections soup). by rewrite Hruns.
  - intros Hfresh. destruct (Nat.leb 2 runs); [|by rewrite Hfresh].
    destruct (insert_anchors_anchors soup None) as [H _].
    unfold find_all at 1. rewrite H. by apply anchors_after_fresh.
  - intros Hlt. pose proof (group_firsts_length None headings) as Hle.
    change (group_firsts None headings) with (sections soup) in Hle.
    rewrite Hruns in Hle.
    destruct (Nat.leb_spec 2 runs); [lia|done].
  - intros Hlt. destruct (Nat.leb_spec 2 runs); [lia|done].
  - intros page out. rewrite sanitize_html_before_anchors.
    destruct (before_anchors page) as [cleaned|]; [|discriminate].
    intros [= <-]. by exists cleaned.
Qed.

Lemma anchors_one_per_run_witness :
  tag_head <$> find_all is_dash_anchor (add_anchors three_headings_page)
  = [("a", [("name", "//apple_ref/cpp/Section/Syntax"); ("class", "dashAnchor")]);
     ("a", [("name", "//apple_ref/cpp/Section/Remarks"); ("class", "dashAnchor")])].
Proof.
  rewrite (proj1 (proj2 (proj2 (anchors_one_per_run three_headings_page))) eq_refl).
  reflexivity.
Defined.

(** C7 as the specification words it fails on a page whose qualifying
    headings all have the same text: the page has two qualifying headings
    in one run, and no anchor is put in for that run. *)
Lemma twin_headings_no_anchor_counterexample :
  heading_key <$> find_all is_section_heading twin_headings_page = ["Syntax"; "Syntax"]
  ∧ count_runs (heading_key <$> find_all is_section_heading twin_headings_page) = 1
  ∧ sanitize_html twin_headings_page = Ok twin_headings_page
  ∧ find_all is_dash_anchor twin_headings_page = [].
Proof. repeat split; vm_compute; reflexivity. Qed.

(** ** A second run of the sanitizer *)

Lemma extract_all_tag (p : node → bool) (nm : string) (a : list (string * string))
    (cs : list node) :
  extract_all p (Tag nm a cs) = Tag nm a (extract_all_list p cs).
Proof.
  induction cs as [|c cs IH]; [reflexivity|].
  cbn [extract_all extract_all_list]. cbn [extract_all] in IH.
  injection IH as IH. destruct (p c); by rewrite IH.
Qed.

Lemma update_all_tag (p : node → bool) (f : list (string * string) → list (string * string))
    (nm : string) (a : list (string * string)) (cs : list node) :
  update_all p f (Tag nm a cs) = Tag nm a (update_node p f <$> cs).
Proof. reflexivity. Qed.

Lemma update_first_tag (p : node → bool) (f : node → node) (nm : string)
    (a : list (string * string)) (cs : list node) :
  update_first p f (Tag nm a cs) = Tag nm a <$> update_first_list p f cs.
Proof.
  induction cs as [|c cs IH]; [reflexivity|].
  cbn [update_first update_first_list]. cbn [update_first] in IH.
  destruct (p c); [done|]. destruct (update_first p f c); [done|].
  match type of IH with
  | match ?t with _ => _ end = _ => destruct t as [r|]
  end; destruct (update_first_list p f cs) as [r'|]; simpl in *; congruence.
Qed.

Lemma extract_all_head (p : node → bool) (n : node) :
  node_head (extract_all p n) = node_head n.
Proof. destruct n; [done..|]. by rewrite extract_all_tag. Qed.

Section Keeps.

Variable Q : bool * string * list (string * string) → Prop.

Lemma extract_all_keeps (p : node → bool) (n : node) :
  all_below Q n → all_below Q (extract_all p n).
Proof.
  unfold all_below.
  induction n as [s|s|nm a cs IH] using node_ind'; [done..|].
  rewrite extract_all_tag, !descendants_tag.
  induction IH as [|c cs Hc _ IHcs]; [done|].
  cbn [descendants_list extract_all_list].
  rewrite Forall_cons, Forall_app. intros (H1 & H2 & H3).
  destruct (p c); [by apply IHcs|].
  cbn [descendants_list]. rewrite Forall_cons, Forall_app, extract_all_head. auto.
Qed.

Lemma extract_all_removes (p : node → bool) (n : node) :
  by_head p →
  Forall (λ d, p d = false) (descendants (extract_all p n)).
Proof.
  intros Hp.
  induction n as [s|s|nm a cs IH] using node_ind'; [done..|].
  rewrite extract_all_tag, !descendants_tag.
  induction IH as [|c cs Hc _ IHcs]; [done|].
  cbn [extract_all_list]. destruct (p c) eqn:E; [done|].
  cbn [descendants_list]. rewrite Forall_cons, Forall_app.
  split; [|done]. rewrite <- E. apply Hp, extract_all_head.
Qed.

Lemma insert_anchors_keeps (prev : option string) (n : node) :
  (∀ x, Q (node_head (dash_anchor x))) →
  all_below Q n → all_below Q (fst (insert_anchors prev n)).
Proof.
  intros Ha. unfold all_below. revert prev.
  induction n as [s|s|nm a cs IH] using node_ind'; [done..|].
  intros prev. rewrite insert_anchors_tag. cbn [fst]. rewrite !descendants_tag.
  revert prev. induction IH as [|c cs Hc _ IHcs]; intros prev; [done|].
  cbn [insert_anchors_list descendants_list].
  rewrite Forall_cons, Forall_app. intros (H1 & H2 & H3).
  specialize (Hc (if is_tag c && is_section_heading c then Some (heading_key c) else prev) H2).
  pose proof (insert_anchors_head
                (if is_tag c && is_section_heading c then Some (heading_key c) else prev) c)
    as (E1 & E2 & E3).
  destruct (insert_anchors _ c) as [c' prev1].
  specialize (IHcs prev1 H3).
  destruct (insert_anchors_list prev1 cs) as [r prev2]. cbn [fst] in *.
  rewrite descendants_list_app. cbn [descendants_list].
  rewrite Forall_app, Forall_cons, Forall_app.
  split; [|split; [|done]].
  - destruct (_ && _ && _); [|constructor].
    apply Forall_cons. split; [apply Ha | constructor].
  - unfold node_head. by rewrite E1, E2, E3.
Qed.

Lemma update_all_keeps (p : node → bool) (f : list (string * string) → list (string * string))
    (n : node) :
  (∀ nm a, Q (true, nm, a) → Q (true, nm, f a)) →
  all_below Q n → all_below Q (update_all p f n).
Proof.
  intros Hf. unfold all_below.
  induction n as [s|s|nm a cs IH] using node_ind'; [done..|].
  rewrite update_all_tag, !descendants_tag.
  induction IH as [|c cs Hc _ IHcs]; [done|].
  rewrite fmap_cons. cbn [descendants_list].
  rewrite !Forall_cons, !Forall_app. intros (H1 & H2 & H3).
  split; [|split; [|by apply IHcs]].
  - destruct c as [s|s|nm' a' cs']; [done..|].
    unfold update_node. rewrite update_all_tag. unfold node_head in *. cbn in *.
    destruct (p _); [by apply Hf | done].
  - destruct c as [s|s|nm' a' cs']; [done..|].
    specialize (Hc H2). rewrite update_all_tag, descendants_tag in Hc.
    unfold update_node. by rewrite update_all_tag, descendants_tag.
Qed.

Lemma update_first_keeps (p : node → bool) (f : node → node) (n n' : node) :
  (∀ c, p c = true → Q (node_head c) → Q (node_head (f c))) →
  (∀ c, descendants (f c) = descendants c) →
  update_first p f n = Some n' →
  all_below Q n → all_below Q n'.
Proof.
  intros Hf Hd. unfold all_below. revert n'.
  induction n as [s|s|nm a cs IH] using node_ind'; [done..|].
  intros n'. rewrite update_first_tag.
  destruct (update_first_list p f cs) as [cs'|] eqn:E; [|done].
  intros [= <-]. rewrite !descendants_tag.
  revert cs' E. induction IH as [|c cs Hc _ IHcs]; intros cs' E; [done|].
  cbn [update_first_list] in E. cbn [descendants_list].
  rewrite Forall_cons, Forall_app. intros (H1 & H2 & H3).
  destruct (p c) eqn:Ep.
  { injection E as <-. cbn [descendants_list]. rewrite Hd.
    rewrite Forall_cons, Forall_app. auto. }
  destruct (update_first p f c) as [c'|] eqn:Ec.
  { injection E as <-. cbn [descendants_list].
    rewrite Forall_cons, Forall_app. split; [|split; [by apply Hc|done]].
    destruct c as [s|s|nm' a' cs0]; [done..|].
    rewrite update_first_tag in Ec. destruct (update_first_list _ _ cs0); [|done].
    by injection Ec as <-. }
  destruct (update_first_list p f cs) as [r|]; [|done].
  injection E as <-. cbn [descendants_list].
  rewrite Forall_cons, Forall_app. auto.
Qed.

End Keeps.

Lemma extract_all_id (p : node → bool) (n : node) :
  Forall (λ d, p d = false) (descendants n) → extract_all p n = n.
Proof.
  induction n as [s|s|nm a cs IH] using node_ind'; [done..|].
  rewrite extract_all_tag, descendants_tag. intros H. f_equal.
  induction IH as [|c cs Hc _ IHcs]; [done|].
  cbn [descendants_list] in H. apply Forall_cons in H as [H1 H].
  apply Forall_app in H as [H2 H3].
  cbn [extract_all_list]. rewrite H1, (Hc H2), (IHcs H3). done.
Qed.

Lemma update_all_id (p : node → bool) (f : list (string * string) → list (string * string))
    (n : node) :
  Forall (λ d, p d = true → f (attrs_of d) = attrs_of d) (descendants n) →
  update_all p f n = n.
Proof.
  induction n as [s|s|nm a cs IH] using node_ind'; [done..|].
  rewrite update_all_tag, descendants_tag. intros H. f_equal.
  induction IH as [|c cs Hc _ IHcs]; [done|].
  cbn [descendants_list] in H. apply Forall_cons in H as [H1 H].
  apply Forall_app in H as [H2 H3].
  rewrite fmap_cons, (IHcs H3). f_equal.
  unfold update_node. rewrite (Hc H2).
  destruct c as [s|s|nm' a' cs']; [done..|].
  destruct (p _); [|done]. cbn in H1. by rewrite (H1 eq_refl).
Qed.

Lemma find_all_nil (p : node → bool) (n : node) :
  Forall (λ d, p d = false) (descendants n) → find_all p n = [].
Proof.
  unfold find_all. induction 1 as [|d l Hd _ IH]; [done|].
  simpl. by rewrite Hd, andb_false_r.
Qed.

Lemma filter_r_ok_forall (p : node → result bool) (l r : list node) :
  filter_r p l = Ok r → Forall (λ d, is_ok (p d) = true) l.
Proof.
  revert r. induction l as [|d l IH]; intros r; [constructor|].
  simpl. intros H. apply rbind_ok in H as (b & Hb & H).
  apply rbind_ok in H as (r' & Hr & _). constructor; [by rewrite Hb | eauto].
Qed.

Lemma filter_r_is_ok (p : node → result bool) (l : list node) :
  Forall (λ d, is_ok (p d) = true) l → ∃ r, filter_r p l = Ok r.
Proof.
  induction 1 as [|d l Hd _ [r IH]]; [by exists []|].
  simpl. destruct (p d) as [b|]; [|done]. rewrite IH. simpl. eauto.
Qed.

Lemma replace_from_absent (old new s : string) :
  Py.contains old s = false → Py.replace_from 0 old new s = s.
Proof.
  induction s as [|c s IH]; [done|].
  rewrite contains_cons. intros [H1 H2]%orb_false_iff.
  cbn [Py.replace_from]. rewrite H1, (IH H2). done.
Qed.

Lemma attr_set_same (k v : string) (a : list (string * string)) :
  attr_get k a = Some v → attr_set k v a = a.
Proof.
  induction a as [|[k' v'] a IH]; [done|]. simpl.
  destruct (String.eqb k' k); [by intros [= ->]|]. intros H. by rewrite IH.
Qed.

Lemma attr_get_set_ne (k k' v : string) (a : list (string * string)) :
  k ≠ k' → attr_get k (attr_set k' v a) = attr_get k a.
Proof.
  intros Hne. induction a as [|[k0 v0] a IH]; simpl.
  - destruct (String.eqb_spec k' k); congruence.
  - destruct (String.eqb_spec k0 k'); simpl.
    + subst. destruct (String.eqb_spec k' k); congruence.
    + by rewrite IH.
Qed.

Lemma attr_get_del_ne (k k' : string) (a : list (string * string)) :
  k ≠ k' → attr_get k (attr_del k' a) = attr_get k a.
Proof.
  intros Hne. unfold attr_del. induction a as [|[k0 v0] a IH]; [done|]. simpl.
  destruct (String.eqb_spec k0 k'); simpl.
  - subst. destruct (String.eqb_spec k' k); congruence.
  - by rewrite IH.
Qed.

Lemma patch_href_class (a : list (string * string)) :
  attr_get "class" (patch_href a) = attr_get "class" a.
Proof.
  unfold patch_href. destruct (attr_get "href" a); [|done].
  by apply attr_get_set_ne.
Qed.

Lemma patch_href_no_htm (nm : string) (a : list (string * string)) :
  no_htm_href (true, nm, a) → nm = "a" → patch_href a = a.
Proof.
  intros H ->. unfold patch_href. destruct (attr_get "href" a) as [h|] eqn:E; [|done].
  unfold Py.replace. rewrite replace_from_absent by by apply H.
  by apply attr_set_same.
Qed.

Lemma named_head (nm : string) (d : node) :
  named nm d = fst (fst (node_head d)) && String.eqb (snd (fst (node_head d))) nm.
Proof. done. Qed.

Lemma has_class_in_head (cl : list string) (d : node) :
  has_class_in cl d
  = fst (fst (node_head d))
    && match attr_get "class" (snd (node_head d)) with
       | None => false
       | Some v =>
           existsb (λ t, Urllib.mem t cl) (tokens v)
           || Urllib.mem (Py.join " " (tokens v)) cl
       end.
Proof. done. Qed.

Lemma is_relative_link_head (d : node) :
  is_relative_link d
  = if fst (fst (node_head d)) && String.eqb (snd (fst (node_head d))) "a"
    then is_relative_href (attr_get "href" (snd (node_head d)))
    else Ok false.
Proof. done. Qed.

Lemma by_head_named (nm : string) : by_head (named nm).
Proof. intros d d' H. by rewrite !named_head, H. Qed.

Lemma by_head_has_class_in (cl : list string) : by_head (has_class_in cl).
Proof. intros d d' H. by rewrite !has_class_in_head, H. Qed.

Lemma all_below_fails (p : node → bool) (n : node) :
  by_head p →
  all_below (head_fails p) n ↔ Forall (λ d, p d = false) (descendants n).
Proof.
  intros Hp. unfold all_below. rewrite !Forall_forall. split.
  - intros H d Hd. by apply (H d Hd).
  - intros H d Hd d' E. rewrite (Hp d' d E). by apply H.
Qed.

Lemma stable_fails_named (nm : string) : nm ≠ "a" → stable (head_fails (named nm)).
Proof.
  intros Hne. split; [|split].
  - intros nm' a H d E. rewrite named_head, E. simpl.
    specialize (H (Tag nm' a []) eq_refl). by rewrite named_head in H.
  - intros nm' a H d E. rewrite named_head, E. simpl.
    specialize (H (Tag nm' a []) eq_refl). by rewrite named_head in H.
  - intros x d E. rewrite named_head, E.
    change (String.eqb "a" nm = false). apply String.eqb_neq. congruence.
Qed.

Lemma stable_fails_furniture : stable (head_fails (has_class_in FURNITURE)).
Proof.
  split; [|split].
  - intros nm a H d E. rewrite has_class_in_head, E. simpl.
    rewrite attr_get_del_ne by done.
    specialize (H (Tag nm a []) eq_refl). by rewrite has_class_in_head in H.
  - intros nm a H d E. rewrite has_class_in_head, E. simpl.
    rewrite patch_href_class.
    specialize (H (Tag nm a []) eq_refl). by rewrite has_class_in_head in H.
  - intros x d E. rewrite has_class_in_head, E. reflexivity.
Qed.

Lemma stable_no_htm_parses : stable (λ h, no_htm_href h ∧ head_parses h).
Proof.
  split; [|split].
  - intros nm a [H1 H2]. split.
    + intros href Hn Hh. simpl in *. rewrite attr_get_del_ne in Hh by done.
      by apply (H1 href).
    + intros d E. rewrite is_relative_link_head, E. simpl.
      rewrite attr_get_del_ne by done.
      specialize (H2 (Tag nm a []) eq_refl). by rewrite is_relative_link_head in H2.
  - intros nm a [H1 H2].
    destruct (String.eqb_spec nm "a") as [->|Hne].
    + by rewrite (patch_href_no_htm "a" a H1 eq_refl).
    + split; [by intros href Hn|].
      intros d E. rewrite is_relative_link_head, E. simpl.
      by apply String.eqb_neq in Hne as ->.
  - intros x. split; [by intros href _ Hh|]. intros d E.
    rewrite is_relative_link_head, E. done.
Qed.

Section Stable.

Variable Q : bool * string * list (string * string) → Prop.
Hypothesis HQ : stable Q.

Lemma del_body_onload_keeps (n n' : node) :
  del_body_onload n = Ok n' → all_below Q n → all_below Q n'.
Proof.
  unfold del_body_onload.
  destruct (update_first _ _ n) as [m|] eqn:E; [|done]. intros [= <-].
  eapply update_first_keeps; [| |exact E].
  - intros [s|s|nm a cs]; [done..|]. intros _. apply HQ.
  - by intros [s|s|nm a cs].
Qed.

Lemma add_anchors_keeps (n : node) : all_below Q n → all_below Q (add_anchors n).
Proof.
  unfold add_anchors. destruct (Nat.leb _ _); [|done].
  apply insert_anchors_keeps, HQ.
Qed.

Lemma patch_links_keeps (n n' : node) :
  patch_links n = Ok n' → all_below Q n → all_below Q n'.
Proof.
  unfold patch_links. destruct (find_all_r _ n); [|done]. intros [= <-].
  apply update_all_keeps, HQ.
Qed.

Lemma sanitize_html_keeps (soup out : node) :
  sanitize_html soup = Ok out → all_below Q soup → all_below Q out.
Proof.
  unfold sanitize_html. intros H Hs.
  apply rbind_ok in H as (s1 & H1 & H). apply rbind_ok in H as (s2 & H2 & [= <-]).
  apply add_anchors_keeps. eapply patch_links_keeps; [done|].
  apply extract_all_keeps. eapply del_body_onload_keeps; [done|].
  by apply extract_all_keeps.
Qed.

End Stable.

Lemma sanitize_html_stages (soup out : node) :
  sanitize_html soup = Ok out →
  ∃ s1 s2,
    del_body_onload (remove_furniture soup) = Ok s1
    ∧ patch_links (remove_scripts s1) = Ok s2
    ∧ out = add_anchors s2.
Proof.
  unfold sanitize_html. intros H.
  apply rbind_ok in H as (s1 & H1 & H). apply rbind_ok in H as (s2 & H2 & [= <-]).
  by exists s1, s2.
Qed.

Lemma sanitize_html_no_furniture (soup out : node) :
  sanitize_html soup = Ok out →
  Forall (λ d, has_class_in FURNITURE d = false) (descendants out).
Proof.
  intros (s1 & s2 & H1 & H2 & ->)%sanitize_html_stages.
  apply all_below_fails; [apply by_head_has_class_in|].
  apply add_anchors_keeps; [apply stable_fails_furniture|].
  eapply patch_links_keeps; [apply stable_fails_furniture|done|].
  apply extract_all_keeps.
  eapply del_body_onload_keeps; [apply stable_fails_furniture|done|].
  apply all_below_fails; [apply by_head_has_class_in|].
  apply extract_all_removes, by_head_has_class_in.
Qed.

Lemma sanitize_html_no_script (soup out : node) :
  sanitize_html soup = Ok out →
  Forall (λ d, named "script" d = false) (descendants out).
Proof.
  intros (s1 & s2 & H1 & H2 & ->)%sanitize_html_stages.
  apply all_below_fails; [apply by_head_named|].
  apply add_anchors_keeps; [by apply stable_fails_named|].
  eapply patch_links_keeps; [by apply stable_fails_named|done|].
  apply all_below_fails; [apply by_head_named|].
  apply extract_all_removes, by_head_named.
Qed.

Lemma patch_links_parses (n n' : node) :
  patch_links n = Ok n' → all_below head_parses n.
Proof.
  unfold patch_links. destruct (find_all_r _ n) as [r|] eqn:E; [|done]. intros _.
  apply filter_r_ok_forall in E. unfold all_below.
  rewrite Forall_forall in *. intros d Hd d' Hh.
  destruct d as [s|s|nm a cs].
  - rewrite is_relative_link_head, Hh. done.
  - rewrite is_relative_link_head, Hh. done.
  - rewrite is_relative_link_head, Hh, <- is_relative_link_head.
    apply E. apply list_elem_of_In, filter_In. split; [by apply list_elem_of_In|done].
Qed.

Lemma patch_links_id (n : node) :
  all_below (λ h, no_htm_href h ∧ head_parses h) n → patch_links n = Ok n.
Proof.
  intros H. unfold patch_links, all_below in *. rewrite Forall_forall in H.
  destruct (filter_r_is_ok is_relative_link (List.filter is_tag (descendants n)))
    as [r Hr].
  { apply Forall_forall. intros d [Hd _]%list_elem_of_In%filter_In.
    apply list_elem_of_In in Hd. by apply (H d Hd). }
  unfold find_all_r. rewrite Hr. simpl. f_equal.
  apply update_all_id, Forall_forall. intros d Hd Hrel.
  destruct (H d Hd) as [Hno _].
  apply relative_link_inv in Hrel as [Ha _].
  destruct d as [s|s|nm a cs]; [done..|].
  apply andb_true_iff in Ha as [_ Ha]. apply String.eqb_eq in Ha.
  by apply (patch_href_no_htm nm).
Qed.

(** C1, as the code has it.  In the output of the sanitizer no script and
    no furniture element is left, so a second run strips nothing.  The
    second run does delete [onload] from the first [body] tag, rewrite the
    links and add the anchors once more.  It changes nothing when the page
    had no hyperlink with [.htm] in its [href], the output has fewer than
    two sections, and the first [body] of the output carries no [onload]. *)
Theorem sanitize_html_second_run (soup out : node) :
  sanitize_html soup = Ok out →
  find_all (named "script") out = []
  ∧ find_all (has_class_in FURNITURE) out = []
  ∧ remove_furniture out = out
  ∧ remove_scripts out = out
  ∧ sanitize_html out
    = (s ← del_body_onload out; p ← patch_links s; Ok (add_anchors p))
  ∧ (all_below no_htm_href soup →
     (List.length (sections out) < 2)%nat →
     del_body_onload out = Ok out →
     sanitize_html out = Ok out).
Proof.
  intros H.
  pose proof (sanitize_html_no_script _ _ H) as Hs.
  pose proof (sanitize_html_no_furniture _ _ H) as Hf.
  assert (E : sanitize_html out
              = (s ← del_body_onload out; p ← patch_links s; Ok (add_anchors p))).
  { unfold sanitize_html, remove_furniture. rewrite (extract_all_id _ _ Hf).
    destruct (del_body_onload out) as [s|] eqn:Ed; [|done]. simpl.
    unfold remove_scripts. rewrite extract_all_id; [done|].
    apply all_below_fails; [apply by_head_named|].
    eapply del_body_onload_keeps; [by apply stable_fails_named|done|].
    by apply all_below_fails; [apply by_head_named|]. }
  do 2 (split; [by apply find_all_nil|]).
  do 2 (split; [by apply extract_all_id|]).
  split; [done|].
  intros Hno Hsec Hbody. rewrite E, Hbody. simpl.
  apply sanitize_html_stages in H as (s1 & s2 & H1 & H2 & ->).
  assert (Hb : all_below (λ h, no_htm_href h ∧ head_parses h) (remove_scripts s1)).
  { unfold all_below in *. apply Forall_forall. intros d Hd. split.
    - revert d Hd. apply Forall_forall.
      apply (extract_all_keeps no_htm_href).
      eapply (del_body_onload_keeps no_htm_href); [|done|].
      + destruct stable_no_htm_parses as (S1 & S2 & S3). split; [|split].
        * intros nm a Hq href Hn Hh. simpl in *.
          rewrite attr_get_del_ne in Hh by done. by apply (Hq href).
        * intros nm a Hq href Hn Hh. simpl in Hn. subst nm.
          rewrite (patch_href_no_htm "a" a Hq eq_refl) in Hh. by apply (Hq href).
        * by intros x href _ Hh.
      + by apply (extract_all_keeps no_htm_href).
    - revert d Hd. apply Forall_forall. by eapply patch_links_parses. }
  rewrite (patch_links_id _ Hb) in H2. injection H2 as <-.
  assert (Hout : all_below (λ h, no_htm_href h ∧ head_parses h)
                   (add_anchors (remove_scripts s1))).
  { by apply add_anchors_keeps; [apply stable_no_htm_parses|]. }
  rewrite (patch_links_id _ Hout). simpl. f_equal.
  unfold add_anchors at 1. destruct (Nat.leb_spec 2 (List.length (sections
    (add_anchors (remove_scripts s1))))); [lia|done].
Qed.

Lemma raw_plain_page_facts :
  sanitize_html raw_plain_page = Ok plain_page
  ∧ all_below no_htm_href raw_plain_page
  ∧ (List.length (sections plain_page) < 2)%nat
  ∧ del_body_onload plain_page = Ok plain_page.
Proof.
  split; [vm_compute; reflexivity|]. split; [|split; [vm_compute; lia|reflexivity]].
  unfold all_below. vm_compute descendants.
  repeat constructor; intros href Hn Hh; simpl in *; try discriminate.
  by injection Hh as <-.
Qed.

Lemma sanitize_html_second_run_witness :
  sanitize_html plain_page = Ok plain_page.
Proof.
  destruct raw_plain_page_facts as (H1 & H2 & H3 & H4).
  exact (proj2 (proj2 (proj2 (proj2 (proj2
           (sanitize_html_second_run raw_plain_page plain_page H1))))) H2 H3 H4).
Defined.

(** C1 as the specification words it fails.  On its own output the
    sanitizer rewrites the link [x.html#frag] of [page_b] once more, to
    [x.htmll#frag], and it puts a second anchor before each of the two
    sections of [three_headings_page]. *)
Lemma sanitize_html_twice_counterexample :
  sanitize_html page_b = Ok (html_page "B" [hyperlink "x.html#frag" "x"])
  ∧ sanitize_html (html_page "B" [hyperlink "x.html#frag" "x"])
    = Ok (html_page "B" [hyperlink "x.htmll#frag" "x"])
  ∧ (once ← sanitize_html three_headings_page;
     twice ← sanitize_html once;
     Ok (List.length (find_all is_dash_anchor three_headings_page),
         List.length (find_all is_dash_anchor once),
         List.length (find_all is_dash_anchor twice)))
    = Ok (0, 2, 4).
Proof. repeat split; vm_compute; reflexivity. Qed.
